(** * Frequency distribution calculator (src/App.jsx)

    A shallow embedding of [calculateFrequencyDistribution] and of the part of
    [handleFileUpload] that guards and calls it, followed by the properties
    the specification states about them.

    Number model.  JavaScript numbers are IEEE doubles; here a finite number
    is an exact rational in canonical form ([Qc], so that equal numbers are
    identical terms, as in JavaScript).  Arithmetic is exact: rounding,
    overflow and the sign of zero are outside the model.  [Math.log10] is the
    real logarithm in base ten.  The non-finite values that the code produces
    on an empty array ([Infinity], [NaN]) are not numbers of the model; the
    one place they arise is kept as a separate case ([NonFinite]). *)

From Stdlib Require Import QArith Qcanon Qround Reals Lqa Lra Lia.
From stdpp Require Import base numbers list sorting gmap strings.

Local Open Scope Qc_scope.
Local Set Warnings "-clear-no-such-hyp".

(** ** Numbers and the [Math] functions *)

Definition half : Qc := Q2Qc (1 # 2).

(** [Math.ceil] on a finite number: an integer. *)
Definition Math_ceil (x : Qc) : Z := Qceiling x.

Definition Qc_min (x y : Qc) : Qc := if decide (x ≤ y) then x else y.
Definition Qc_max (x y : Qc) : Qc := if decide (x ≤ y) then y else x.

(** [Math.min(...xs)] and [Math.max(...xs)].  On an empty argument list
    JavaScript answers [Infinity] and [-Infinity]: [None] here. *)
Definition Math_min (xs : list Qc) : option Qc :=
  match xs with
  | [] => None
  | x :: xs' => Some (foldl Qc_min x xs')
  end.

Definition Math_max (xs : list Qc) : option Qc :=
  match xs with
  | [] => None
  | x :: xs' => Some (foldl Qc_max x xs')
  end.

(** [Math.log10] on the reals. *)
Definition Math_log10 (x : R) : R := (ln x / ln 10)%R.

(** [1 + 3.3 * Math.log10(n)]. *)
Definition sturges (n : nat) : R := (1 + 3.3 * Math_log10 (INR n))%R.

(** [Math.ceil(1 + 3.3 * Math.log10(n))] for [n >= 1], computed on integers:
    [3.3 * log10 n <= k] exactly when [n ^ 33 <= 10 ^ (10 * k)], so the
    ceiling is one more than the least such [k].  [ceil_sturges_correct]
    below proves that this is [Zceil (sturges n)]. *)
Fixpoint sturges_search (n33 : Z) (fuel : nat) (k : Z) : Z :=
  match fuel with
  | O => k
  | S fuel' =>
      if (n33 <=? 10 ^ (10 * k))%Z then k
      else sturges_search n33 fuel' (k + 1)
  end.

Definition ceil_sturges (n : nat) : Z :=
  (1 + sturges_search (Z.of_nat n ^ 33) n 0)%Z.

(** ** The result object *)

(** One row of [frequencyTable].  [classInterval] is the template string
    [`${lowerLimit} - ${upperLimit}`]; the model keeps the two numbers the
    string is printed from. *)
Record ClassRecord : Type := {
  lowerEdge : Qc;
  classInterval : Qc * Qc;
  upperEdge : Qc;
  midpoint : Qc;
  frequency : nat
}.

Definition lowerLimit (c : ClassRecord) : Qc := (classInterval c).1.
Definition upperLimit (c : ClassRecord) : Qc := (classInterval c).2.

(** The object handed to [setResults].  [data] is the array [sortedData];
    nothing writes to that array after the sort, so the record keeps its
    contents. *)
Record Results : Type := {
  data : list Qc;
  minValue : Qc;
  maxValue : Qc;
  range : Qc;
  numberOfClasses : Z;
  rawNumberOfClasses : R;
  classWidth : Z;
  rawClassWidth : Qc;
  frequencyTable : list ClassRecord
}.

(** The React state [results]: [null], an object with finite fields, or the
    object the code builds from an empty array, whose fields are
    [minValue = Infinity], [maxValue = range = numberOfClasses = -Infinity],
    [classWidth = NaN] and an empty [frequencyTable]. *)
Inductive ResultsState : Type :=
  | Null
  | Computed (r : Results)
  | NonFinite.

(** ** The store: arrays on the heap and the component state *)

Definition loc : Type := nat.

Record World : Type := {
  st_arrays : gmap loc (list Qc);
  st_data : loc;
  st_results : ResultsState;
  st_error : string;
  st_loading : bool;
  st_fileSelected : bool
}.

Definition with_arrays (h : gmap loc (list Qc)) (σ : World) : World :=
  {| st_arrays := h; st_data := st_data σ; st_results := st_results σ;
     st_error := st_error σ; st_loading := st_loading σ;
     st_fileSelected := st_fileSelected σ |}.

(** A computation on the store. *)
Definition M (A : Type) : Type := World → A * World.

#[global] Instance M_ret : MRet M := λ A (a : A) σ, (a, σ).
#[global] Instance M_bind : MBind M :=
  λ A B (f : A → M B) (m : M A) σ, let '(a, σ') := m σ in f a σ'.

Definition exec {A : Type} (m : M A) (σ : World) : World := (m σ).2.

(** Array primitives.  A new array takes a location that is not in use. *)
Definition array_new (xs : list Qc) : M loc :=
  λ σ, let l := fresh (dom (st_arrays σ)) in
       (l, with_arrays (<[l := xs]> (st_arrays σ)) σ).

Definition array_read (a : loc) : M (list Qc) :=
  λ σ, (default [] (st_arrays σ !! a), σ).

Definition array_write (a : loc) (xs : list Qc) : M unit :=
  λ σ, (tt, with_arrays (<[a := xs]> (st_arrays σ)) σ).

(** [[...a]]: a fresh array with the elements of [a]. *)
Definition spread (a : loc) : M loc :=
  xs ← array_read a; array_new xs.

(** [a.sort((x, y) => x - y)]: sorts [a] in place, ascending and stable, and
    returns [a] itself. *)
Definition Array_sort (a : loc) : M loc :=
  xs ← array_read a;
  _ ← array_write a (merge_sort Qcle xs);
  mret a.

(** [a.filter(p)]: a fresh array with the elements of [a] that satisfy [p]. *)
Definition Array_filter (P : Qc → Prop) `{!∀ x, Decision (P x)} (a : loc)
    : M loc :=
  xs ← array_read a; array_new (filter P xs).

Definition Array_length (a : loc) : M nat :=
  xs ← array_read a; mret (length xs).

(** State setters of the component. *)
Definition setData (a : loc) : M unit :=
  λ σ, (tt, {| st_arrays := st_arrays σ; st_data := a;
               st_results := st_results σ; st_error := st_error σ;
               st_loading := st_loading σ;
               st_fileSelected := st_fileSelected σ |}).

Definition setResults (r : ResultsState) : M unit :=
  λ σ, (tt, {| st_arrays := st_arrays σ; st_data := st_data σ;
               st_results := r; st_error := st_error σ;
               st_loading := st_loading σ;
               st_fileSelected := st_fileSelected σ |}).

Definition setError (e : string) : M unit :=
  λ σ, (tt, {| st_arrays := st_arrays σ; st_data := st_data σ;
               st_results := st_results σ; st_error := e;
               st_loading := st_loading σ;
               st_fileSelected := st_fileSelected σ |}).

Definition setLoading (b : bool) : M unit :=
  λ σ, (tt, {| st_arrays := st_arrays σ; st_data := st_data σ;
               st_results := st_results σ; st_error := st_error σ;
               st_loading := b; st_fileSelected := st_fileSelected σ |}).

Definition setFileSelected (b : bool) : M unit :=
  λ σ, (tt, {| st_arrays := st_arrays σ; st_data := st_data σ;
               st_results := st_results σ; st_error := st_error σ;
               st_loading := st_loading σ; st_fileSelected := b |}).

(** ** calculateFrequencyDistribution *)

(** The test of the filter callback,
    [value >= lowerLimit && value <= upperLimit]. *)
Definition in_class (lowerLimit upperLimit value : Qc) : Prop :=
  lowerLimit ≤ value ∧ value ≤ upperLimit.

#[global] Instance in_class_dec lo hi value : Decision (in_class lo hi value).
Proof. unfold in_class. apply _. Defined.

(** The [for] loop of lines 104-124; [todo] is [numberOfClasses - i]. *)
Fixpoint frequencyTable_loop (sortedData : loc) (classWidth : Z)
    (todo : nat) (lowerLimit : Qc) : M (list ClassRecord) :=
  match todo with
  | O => mret []
  | S todo' =>
      let upperLimit := lowerLimit + Qc_of_Z classWidth - 1 in
      let lowerEdge := lowerLimit - half in
      let upperEdge := upperLimit + half in
      let midpoint := (lowerLimit + upperLimit) / 2 in
      inside ← Array_filter (in_class lowerLimit upperLimit) sortedData;
      frequency ← Array_length inside;
      rest ← frequencyTable_loop sortedData classWidth todo'
        (upperLimit + 1);
      mret ({| lowerEdge := lowerEdge;
               classInterval := (lowerLimit, upperLimit);
               upperEdge := upperEdge;
               midpoint := midpoint;
               frequency := frequency |} :: rest)
  end.

Definition calculateFrequencyDistribution (values : loc) : M unit :=
  copy ← spread values;
  sortedData ← Array_sort copy;
  sorted ← array_read sortedData;
  match Math_min sorted, Math_max sorted with
  | Some minValue, Some maxValue =>
      let range := maxValue - minValue in
      n ← Array_length sortedData;
      let rawNumberOfClasses := sturges n in
      let numberOfClasses := ceil_sturges n in
      let rawClassWidth := range / Qc_of_Z numberOfClasses in
      let classWidth := Math_ceil rawClassWidth in
      frequencyTable ← frequencyTable_loop sortedData classWidth
        (Z.to_nat numberOfClasses) minValue;
      setResults (Computed
        {| data := sorted;
           minValue := minValue;
           maxValue := maxValue;
           range := range;
           numberOfClasses := numberOfClasses;
           rawNumberOfClasses := rawNumberOfClasses;
           classWidth := classWidth;
           rawClassWidth := rawClassWidth;
           frequencyTable := frequencyTable |})
  | _, _ => setResults NonFinite
  end.

(** ** handleFileUpload *)

(** A cell of the parsed file: a value whose [typeof] is ['number'], or
    anything else (text, boolean, empty). *)
Inductive Cell : Type :=
  | NumberCell (x : Qc)
  | OtherCell.

(** What the event handler sees of the selected file: the lower-cased
    extension of its name and the cells that the CSV or spreadsheet parser
    returns, flattened.  The parsers themselves are external. *)
Record File : Type := {
  fileExtension : string;
  cells : list Cell
}.

(** [cells.filter(value => typeof value === 'number')] *)
Definition numeric_cells (cs : list Cell) : list Qc :=
  omap (λ c, match c with NumberCell x => Some x | OtherCell => None end) cs.

Definition unsupported_format : string :=
  "Format file tidak didukung. Harap upload file Excel (.xlsx, .xls) atau CSV.".
Definition no_numeric_data : string :=
  "Tidak ada data numerik yang ditemukan dalam file.".
Definition read_failure : string :=
  "Terjadi kesalahan saat membaca file.".

(** The body of the [try] block (lines 26-63); [inl message] is a thrown
    [Error].  Both parsers hand over the flattened cells, of which the
    numbers are kept in a new array. *)
Definition try_block (file : File) : M (string + unit) :=
  _ ← array_new [];
  extracted ←
    (if decide (fileExtension file = "csv") then
       values ← array_new (numeric_cells (cells file));
       mret (inr values)
     else if decide (fileExtension file ∈ ["xlsx"; "xls"]) then
       values ← array_new (numeric_cells (cells file));
       mret (inr values)
     else mret (inl unsupported_format)) : M (string + loc);
  match extracted with
  | inl message => mret (inl message)
  | inr values =>
      n ← Array_length values;
      if decide (n = 0%nat) then mret (inl no_numeric_data)
      else
        _ ← setData values;
        _ ← calculateFrequencyDistribution values;
        mret (inr tt)
  end.

(** [e.target.files[0]] is [None] when no file is selected. *)
Definition handleFileUpload (e : option File) : M unit :=
  _ ← setError "";
  _ ← setLoading true;
  match e with
  | None =>
      _ ← setFileSelected false;
      setLoading false
  | Some file =>
      _ ← setFileSelected true;
      outcome ← try_block file;
      _ ← match outcome with
          | inl message =>
              setError (if decide (message = "") then read_failure
                        else message)
          | inr _ => mret tt
          end;
      setLoading false
  end.

(** ** Functional model

    What [calculateFrequencyDistribution] computes, as a function of the
    contents of its argument.  [calculate_run] below proves that the code on
    the store agrees with it. *)

Definition class_record (sorted : list Qc) (w : Z) (lo : Qc) : ClassRecord :=
  let hi := lo + Qc_of_Z w - 1 in
  {| lowerEdge := lo - half;
     classInterval := (lo, hi);
     upperEdge := hi + half;
     midpoint := (lo + hi) / 2;
     frequency := length (filter (in_class lo hi) sorted) |}.

Fixpoint classes (sorted : list Qc) (w : Z) (todo : nat) (lo : Qc)
    : list ClassRecord :=
  match todo with
  | O => []
  | S todo' =>
      class_record sorted w lo
      :: classes sorted w todo' (lo + Qc_of_Z w - 1 + 1)
  end.

Definition table_of (sorted : list Qc) (lo hi : Qc) : Results :=
  let n := length sorted in
  let k := ceil_sturges n in
  let w := Math_ceil ((hi - lo) / Qc_of_Z k) in
  {| data := sorted;
     minValue := lo;
     maxValue := hi;
     range := hi - lo;
     numberOfClasses := k;
     rawNumberOfClasses := sturges n;
     classWidth := w;
     rawClassWidth := (hi - lo) / Qc_of_Z k;
     frequencyTable := classes sorted w (Z.to_nat k) lo |}.

Definition distribution (values : list Qc) : ResultsState :=
  let sorted := merge_sort Qcle values in
  match Math_min sorted, Math_max sorted with
  | Some lo, Some hi => Computed (table_of sorted lo hi)
  | _, _ => NonFinite
  end.

(** The store after a computation that only allocates arrays and, possibly,
    replaces [results]: arrays that existed are unchanged. *)
Definition grows (σ σ' : World) : Prop :=
  st_arrays σ ⊆ st_arrays σ'
  ∧ st_data σ' = st_data σ
  ∧ st_error σ' = st_error σ
  ∧ st_loading σ' = st_loading σ
  ∧ st_fileSelected σ' = st_fileSelected σ.

(** The [results] state after a call of [calculateFrequencyDistribution]. *)
Definition results_after (values : loc) (σ : World) : ResultsState :=
  st_results (exec (calculateFrequencyDistribution values) σ).

(** The component as mounted: [data] is an empty array, [results] is
    [null], no error, not loading, no file selected. *)
Definition initial_world : World :=
  {| st_arrays := {[ 0%nat := [] ]}; st_data := 0%nat; st_results := Null;
     st_error := ""; st_loading := false; st_fileSelected := false |}.

(** The mounted component with one more array, at location 1. *)
Definition world_with (xs : list Qc) : World :=
  with_arrays (<[ 1%nat := xs ]> (st_arrays initial_world)) initial_world.

(** Sum of the [frequency] column. *)
Definition total_frequency (t : list ClassRecord) : nat :=
  sum_list (frequency <$> t).

(** A number is an integer: it is its own floor. *)
Definition is_integer (x : Qc) : Prop := Qc_of_Z (Qfloor x) = x.

(** [upperLimit[i] + 1 == lowerLimit[i+1]] for every adjacent pair. *)
Definition contiguous (t : list ClassRecord) : Prop :=
  ∀ (i : nat) (c c' : ClassRecord),
    t !! i = Some c → t !! S i = Some c' → upperLimit c + 1 = lowerLimit c'.

(** No value passes the membership test of two different classes. *)
Definition non_overlapping (t : list ClassRecord) : Prop :=
  ∀ (i j : nat) (c c' : ClassRecord) (v : Qc),
    i ≠ j → t !! i = Some c → t !! j = Some c' →
    in_class (lowerLimit c) (upperLimit c) v →
    ¬ in_class (lowerLimit c') (upperLimit c') v.

(** ** The rendered page (lines 139-258)

    Of the JSX the model keeps what is decided by code: which parts appear
    and the two ten-column grids.  The summary box and the frequency table
    print fields of [results] through number formatting ([toFixed]) and
    are left out. *)

(** A [<td>] of a grid: one that shows a value, or an empty one. *)
Inductive GridCell : Type :=
  | Shown (x : Qc)
  | Blank.

(** The cell at [rowIndex], [colIndex]: [data[dataIndex]] when
    [dataIndex < data.length], an empty cell otherwise. *)
Definition grid_cell (d : list Qc) (rowIndex colIndex : nat) : GridCell :=
  let dataIndex := (rowIndex * 10 + colIndex)%nat in
  if decide (dataIndex < length d)%nat then
    match d !! dataIndex with
    | Some x => Shown x
    | None => Blank
    end
  else Blank.

(** [Array.from({ length: 10 }).map((_, colIndex) => ...)] *)
Definition grid_row (d : list Qc) (rowIndex : nat) : list GridCell :=
  grid_cell d rowIndex <$> seq 0 10.

(** [Array.from({ length: Math.ceil(data.length / 10) }).map(...)] *)
Definition data_grid (d : list Qc) : list (list GridCell) :=
  grid_row d
  <$> seq 0 (Z.to_nat
               (Math_ceil (Qc_of_Z (Z.of_nat (length d)) / Qc_of_Z 10))).

(** What is on the page: the "Memproses data..." line, the error text,
    the grid "Data Asli" and the grid "Data Terurut". *)
Record View : Type := {
  loading_line : bool;
  error_text : option string;
  original_grid : option (list (list GridCell));
  sorted_grid : option (list (list GridCell))
}.

(** [results.data] of the current [results]; the object built from an empty
    array holds the empty sorted array. *)
Definition results_data (r : ResultsState) : option (list Qc) :=
  match r with
  | Null => None
  | Computed r => Some (data r)
  | NonFinite => Some []
  end.

(** The conditions [loading && ...], [error && ...],
    [data.length > 0 && ...] and [results && ...]. *)
Definition render (σ : World) : View :=
  let d := default [] (st_arrays σ !! st_data σ) in
  {| loading_line := st_loading σ;
     error_text :=
       if decide (st_error σ = "") then None else Some (st_error σ);
     original_grid :=
       if decide (0 < length d)%nat then Some (data_grid d) else None;
     sorted_grid := data_grid <$> results_data (st_results σ) |}.

(** The values a grid shows, read row by row. *)
Definition shown_values (g : list (list GridCell)) : list Qc :=
  omap (λ c, match c with Shown x => Some x | Blank => None end) (concat g).

(** A file type the handler accepts. *)
Definition supported (file : File) : Prop :=
  fileExtension file = "csv" ∨ fileExtension file ∈ ["xlsx"; "xls"].

#[global] Instance supported_dec file : Decision (supported file).
Proof. unfold supported. apply _. Defined.

(** The store when the [try] block is entered. *)
Definition entering (σ : World) : World :=
  (setFileSelected true (setLoading true (setError "" σ).2).2).2.

(** What a grid cell shows, by position in the data. *)
Definition cell_at (d : list Qc) (i : nat) : GridCell :=
  match d !! i with
  | Some x => Shown x
  | None => Blank
  end.

(** * Proofs *)

(** ** The store *)

Lemma grows_refl σ : grows σ σ.
Proof. by repeat split. Qed.

Lemma grows_trans σ1 σ2 σ3 : grows σ1 σ2 → grows σ2 σ3 → grows σ1 σ3.
Proof.
  intros (Ha & Hd & He & Hl & Hf) (Ha' & Hd' & He' & Hl' & Hf').
  repeat split; [by trans (st_arrays σ2) | congruence..].
Qed.

Lemma grows_lookup σ σ' a xs :
  grows σ σ' → st_arrays σ !! a = Some xs → st_arrays σ' !! a = Some xs.
Proof. intros [Ha _] H. by eapply lookup_weaken. Qed.

Lemma array_new_run xs σ :
  ∃ l σ', array_new xs σ = (l, σ')
    ∧ grows σ σ' ∧ st_arrays σ' !! l = Some xs
    ∧ st_arrays σ !! l = None ∧ st_results σ' = st_results σ.
Proof.
  eexists _, _. split; [reflexivity|].
  assert (st_arrays σ !! fresh (dom (st_arrays σ)) = None) as Hfresh.
  { apply not_elem_of_dom, is_fresh. }
  repeat split; simpl;
    [by apply insert_subseteq | by rewrite lookup_insert_eq | done].
Qed.

Lemma array_read_run a xs σ :
  st_arrays σ !! a = Some xs → array_read a σ = (xs, σ).
Proof. intros H. unfold array_read. by rewrite H. Qed.

Lemma Array_filter_run (P : Qc → Prop) `{!∀ x, Decision (P x)} a xs σ :
  st_arrays σ !! a = Some xs →
  ∃ l σ', Array_filter P a σ = (l, σ')
    ∧ grows σ σ' ∧ st_arrays σ' !! l = Some (filter P xs)
    ∧ st_results σ' = st_results σ.
Proof.
  intros Ha. unfold Array_filter, mbind, M_bind.
  rewrite (array_read_run a xs σ Ha).
  destruct (array_new_run (filter P xs) σ) as (l & σ' & -> & ? & ? & ? & ?).
  by exists l, σ'.
Qed.

Lemma Array_length_run a xs σ :
  st_arrays σ !! a = Some xs → Array_length a σ = (length xs, σ).
Proof.
  intros Ha. unfold Array_length, mbind, M_bind.
  by rewrite (array_read_run a xs σ Ha).
Qed.

Lemma frequencyTable_loop_run sortedData sorted w todo :
  ∀ lo σ, st_arrays σ !! sortedData = Some sorted →
  ∃ σ', frequencyTable_loop sortedData w todo lo σ
          = (classes sorted w todo lo, σ')
    ∧ grows σ σ' ∧ st_results σ' = st_results σ.
Proof.
  induction todo as [|todo IH]; intros lo σ Hs.
  - exists σ. split; [done|]. split; [apply grows_refl | done].
  - cbn [frequencyTable_loop]. unfold mbind, M_bind.
    destruct (Array_filter_run
      (in_class lo (lo + Qc_of_Z w - 1)) sortedData sorted σ Hs)
      as (l & σ1 & -> & Hg1 & Hl & Hr1).
    rewrite (Array_length_run l _ σ1 Hl).
    destruct (IH (lo + Qc_of_Z w - 1 + 1) σ1) as (σ2 & -> & Hg2 & Hr2).
    { by eapply grows_lookup. }
    exists σ2. split; [done|]. split; [by eapply grows_trans | congruence].
Qed.

Lemma Array_sort_run a xs σ :
  st_arrays σ !! a = Some xs →
  Array_sort a σ
  = (a, with_arrays (<[a := merge_sort Qcle xs]> (st_arrays σ)) σ).
Proof.
  intros Ha. unfold Array_sort, mbind, M_bind.
  by rewrite (array_read_run a xs σ Ha).
Qed.

Lemma calculate_run σ values xs :
  st_arrays σ !! values = Some xs →
  ∃ σ', calculateFrequencyDistribution values σ = (tt, σ')
    ∧ grows σ σ' ∧ st_results σ' = distribution xs.
Proof.
  intros Hv. unfold calculateFrequencyDistribution, spread, mbind, M_bind.
  rewrite (array_read_run values xs σ Hv).
  destruct (array_new_run xs σ) as (copy & σ1 & -> & Hg1 & Hc & Hfresh & Hr1).
  rewrite (Array_sort_run copy xs σ1 Hc).
  set (sorted := merge_sort Qcle xs).
  set (σ2 := with_arrays _ σ1).
  assert (st_arrays σ2 !! copy = Some sorted) as Hs
    by apply lookup_insert_eq.
  assert (grows σ σ2) as Hg2.
  { destruct Hg1 as (Ha & ? & ? & ? & ?). repeat split; try done.
    simpl. by apply insert_subseteq_r. }
  rewrite (array_read_run copy sorted σ2 Hs).
  unfold distribution. fold sorted.
  destruct (Math_min sorted) as [lo|], (Math_max sorted) as [hi|];
    try (eexists; split; [reflexivity|]; split; [apply Hg2 | done]).
  rewrite (Array_length_run copy sorted σ2 Hs).
  destruct (frequencyTable_loop_run copy sorted
    (Math_ceil ((hi - lo) / Qc_of_Z (ceil_sturges (length sorted))))
    (Z.to_nat (ceil_sturges (length sorted))) lo σ2 Hs)
    as (σ3 & -> & Hg3 & Hr3).
  eexists. split; [reflexivity|]. split; [|done].
  eapply grows_trans; [exact Hg2|].
  eapply grows_trans; [exact Hg3|].
  by repeat split.
Qed.

(** ** Arithmetic on [Qc] through [Q] *)

Lemma Qc_eq_Qeq (x y : Qc) : x = y ↔ (x == y)%Q.
Proof. split; [by intros -> | apply Qc_is_canon]. Qed.

Ltac qc_to_q :=
  repeat match goal with
    | H : @eq Qc _ _ |- _ => apply Qc_eq_Qeq in H
    | H : ¬ @eq Qc _ _ |- _ => rewrite Qc_eq_Qeq in H
    | H : ¬ Qcle _ _ |- _ => apply Qcnot_le_lt in H
    | H : ¬ Qclt _ _ |- _ => apply Qcnot_lt_le in H
    | |- @eq Qc _ _ => apply Qc_is_canon
    end;
  unfold in_class, half, Qcle, Qclt, Qcminus, Qcplus, Qcopp, Qcmult,
    Qc_of_Z, Q2Qc in *;
  cbn [this] in *;
  rewrite ?Qred_correct in *;
  change (inject_Z 0) with 0%Q in *;
  change (inject_Z 1) with 1%Q in *;
  repeat match goal with
    | |- context [inject_Z ?z] =>
        let x := fresh "x" in set (x := inject_Z z) in *; clearbody x
    | H : context [inject_Z ?z] |- _ =>
        let x := fresh "x" in set (x := inject_Z z) in *; clearbody x
    end.

Ltac qc_lra := qc_to_q; Lqa.lra.

(** ** [Math.min] and [Math.max] *)

Lemma foldl_Qc_min_spec xs : ∀ x,
  foldl Qc_min x xs ∈ x :: xs ∧ ∀ y, y ∈ x :: xs → foldl Qc_min x xs ≤ y.
Proof.
  induction xs as [|a xs IH]; intros x; cbn [foldl].
  - split; [apply list_elem_of_here|]. by intros y ->%list_elem_of_singleton.
  - destruct (IH (Qc_min x a)) as [Hin Hle]. split.
    + apply elem_of_cons in Hin as [Hin|Hin].
      * rewrite Hin. unfold Qc_min. case_decide; [left|right; left].
      * by do 2 right.
    + intros y Hy.
      assert (Qc_min x a ≤ x ∧ Qc_min x a ≤ a) as [Hx Ha].
      { unfold Qc_min. case_decide; split; try done; qc_lra. }
      assert (foldl Qc_min (Qc_min x a) xs ≤ Qc_min x a) as H0
        by apply Hle, list_elem_of_here.
      apply elem_of_cons in Hy as [->|[->|Hy]%elem_of_cons].
      * by trans (Qc_min x a).
      * by trans (Qc_min x a).
      * by apply Hle, list_elem_of_further.
Qed.

Lemma foldl_Qc_max_spec xs : ∀ x,
  foldl Qc_max x xs ∈ x :: xs ∧ ∀ y, y ∈ x :: xs → y ≤ foldl Qc_max x xs.
Proof.
  induction xs as [|a xs IH]; intros x; cbn [foldl].
  - split; [apply list_elem_of_here|]. by intros y ->%list_elem_of_singleton.
  - destruct (IH (Qc_max x a)) as [Hin Hle]. split.
    + apply elem_of_cons in Hin as [Hin|Hin].
      * rewrite Hin. unfold Qc_max. case_decide; [right; left|left].
      * by do 2 right.
    + intros y Hy.
      assert (x ≤ Qc_max x a ∧ a ≤ Qc_max x a) as [Hx Ha].
      { unfold Qc_max. case_decide; split; try done; qc_lra. }
      assert (Qc_max x a ≤ foldl Qc_max (Qc_max x a) xs) as H0
        by apply Hle, list_elem_of_here.
      apply elem_of_cons in Hy as [->|[->|Hy]%elem_of_cons].
      * by trans (Qc_max x a).
      * by trans (Qc_max x a).
      * by apply Hle, list_elem_of_further.
Qed.

Lemma Math_min_spec xs m :
  Math_min xs = Some m → m ∈ xs ∧ ∀ y, y ∈ xs → m ≤ y.
Proof.
  destruct xs as [|x xs]; [done|]. intros [= <-]. apply foldl_Qc_min_spec.
Qed.

Lemma Math_max_spec xs m :
  Math_max xs = Some m → m ∈ xs ∧ ∀ y, y ∈ xs → y ≤ m.
Proof.
  destruct xs as [|x xs]; [done|]. intros [= <-]. apply foldl_Qc_max_spec.
Qed.

Lemma merge_sort_nonempty (xs : list Qc) : xs ≠ [] → merge_sort Qcle xs ≠ [].
Proof.
  intros Hne Hs. apply Hne, Permutation_nil_r.
  rewrite <-Hs. by rewrite merge_sort_Permutation.
Qed.

(** ** The class count *)

Lemma sturges_search_ge n33 fuel : ∀ k, (k ≤ sturges_search n33 fuel k)%Z.
Proof.
  induction fuel as [|fuel IH]; intros k; cbn [sturges_search]; [lia|].
  case_match; [lia|]. specialize (IH (k + 1)%Z). lia.
Qed.

Lemma ceil_sturges_pos n : (1 ≤ ceil_sturges n)%Z.
Proof.
  unfold ceil_sturges. pose proof (sturges_search_ge (Z.of_nat n ^ 33) n 0).
  lia.
Qed.

(** ** The distribution of a non-empty sequence *)

Lemma distribution_nonempty xs :
  xs ≠ [] →
  ∃ lo hi, distribution xs = Computed (table_of (merge_sort Qcle xs) lo hi)
    ∧ lo ∈ xs ∧ hi ∈ xs ∧ ∀ v, v ∈ xs → lo ≤ v ∧ v ≤ hi.
Proof.
  intros Hne%merge_sort_nonempty. unfold distribution.
  assert (∀ v, v ∈ merge_sort Qcle xs ↔ v ∈ xs) as Hperm.
  { intros v. by rewrite merge_sort_Permutation. }
  destruct (Math_min (merge_sort Qcle xs)) as [lo|] eqn:Hmin;
    [|by destruct (merge_sort Qcle xs)].
  destruct (Math_max (merge_sort Qcle xs)) as [hi|] eqn:Hmax;
    [|by destruct (merge_sort Qcle xs)].
  apply Math_min_spec in Hmin as [Hlo Hmin].
  apply Math_max_spec in Hmax as [Hhi Hmax].
  exists lo, hi. rewrite <-!Hperm. split_and!; [done..|].
  intros v Hv%Hperm. auto.
Qed.

(** The code run on an array with contents [xs], [xs] not empty. *)
Lemma run_nonempty σ values xs :
  st_arrays σ !! values = Some xs → xs ≠ [] →
  ∃ lo hi,
    st_results (exec (calculateFrequencyDistribution values) σ)
      = Computed (table_of (merge_sort Qcle xs) lo hi)
    ∧ lo ∈ xs ∧ hi ∈ xs ∧ ∀ v, v ∈ xs → lo ≤ v ∧ v ≤ hi.
Proof.
  intros Hv Hne.
  destruct (calculate_run σ values xs Hv) as (σ' & Hrun & _ & Hres).
  destruct (distribution_nonempty xs Hne) as (lo & hi & Hd & ?).
  exists lo, hi. split; [|done]. unfold exec. rewrite Hrun. simpl. congruence.
Qed.

(** ** The class table *)

Lemma classes_length sorted w todo : ∀ lo,
  length (classes sorted w todo lo) = todo.
Proof. induction todo as [|todo IH]; intros lo; cbn; [done|]. by rewrite IH. Qed.

Lemma classes_lookup sorted w todo : ∀ lo (i : nat) c,
  classes sorted w todo lo !! i = Some c →
  c = class_record sorted w (lo + Qc_of_Z (Z.of_nat i * w)).
Proof.
  induction todo as [|todo IH]; intros lo i c; cbn [classes]; [done|].
  destruct i as [|i]; cbn.
  - intros [= <-]. f_equal. rewrite Z.mul_0_l. qc_lra.
  - intros ->%IH. f_equal.
    replace (Z.of_nat (S i) * w)%Z with (w + Z.of_nat i * w)%Z by lia.
    rewrite Z2Qc_inj_add. qc_lra.
Qed.

Lemma classes_contiguous sorted w todo lo :
  contiguous (classes sorted w todo lo).
Proof.
  intros i c c' ->%classes_lookup ->%classes_lookup.
  unfold upperLimit, lowerLimit. cbn.
  replace (Z.of_nat (S i) * w)%Z with (w + Z.of_nat i * w)%Z by lia.
  rewrite Z2Qc_inj_add. qc_lra.
Qed.

Lemma classes_apart sorted w (i j : nat) lo (v : Qc) :
  (0 ≤ w)%Z → (i < j)%nat →
  in_class (lowerLimit (class_record sorted w (lo + Qc_of_Z (Z.of_nat i * w))))
    (upperLimit (class_record sorted w (lo + Qc_of_Z (Z.of_nat i * w)))) v →
  in_class (lowerLimit (class_record sorted w (lo + Qc_of_Z (Z.of_nat j * w))))
    (upperLimit (class_record sorted w (lo + Qc_of_Z (Z.of_nat j * w)))) v →
  False.
Proof.
  intros Hw Hij. unfold upperLimit, lowerLimit. cbn. intros [_ H1] [H2 _].
  assert (Z.of_nat i * w + w ≤ Z.of_nat j * w)%Z as Hle by nia.
  apply Z2Qc_inj_le in Hle. rewrite Z2Qc_inj_add in Hle. qc_lra.
Qed.

Lemma classes_non_overlapping sorted w todo lo :
  (0 ≤ w)%Z → non_overlapping (classes sorted w todo lo).
Proof.
  intros Hw i j c c' v Hij ->%classes_lookup ->%classes_lookup Hc Hc'.
  destruct (Nat.lt_total i j) as [Hlt|[->|Hlt]]; [|done|];
    eauto using classes_apart.
Qed.

(** Counting with [filter]. *)
Lemma filter_length_le3 (P Q R : Qc → Prop)
    `{!∀ x, Decision (P x), !∀ x, Decision (Q x), !∀ x, Decision (R x)} xs :
  (∀ x, P x → R x) → (∀ x, Q x → R x) → (∀ x, P x → Q x → False) →
  (length (filter P xs) + length (filter Q xs) ≤ length (filter R xs))%nat.
Proof.
  intros HP HQ HPQ. induction xs as [|x xs IH]; [done|].
  rewrite !filter_cons.
  destruct (decide (P x)), (decide (Q x)), (decide (R x)); cbn;
    first [lia | exfalso; naive_solver].
Qed.

Lemma filter_length_split (P Q R : Qc → Prop)
    `{!∀ x, Decision (P x), !∀ x, Decision (Q x), !∀ x, Decision (R x)} xs :
  (∀ x, x ∈ xs → (R x ↔ P x ∨ Q x)) → (∀ x, P x → Q x → False) →
  (length (filter P xs) + length (filter Q xs))%nat = length (filter R xs).
Proof.
  intros HR HPQ. induction xs as [|x xs IH]; [done|].
  rewrite !filter_cons.
  pose proof (HR x (list_elem_of_here _ _)) as Hx.
  assert (length (filter P xs) + length (filter Q xs)
          = length (filter R xs))%nat as IH'
    by (apply IH; intros y Hy; apply HR; by right).
  destruct (decide (P x)), (decide (Q x)), (decide (R x)); cbn;
    first [lia | exfalso; naive_solver].
Qed.

Lemma filter_length_all (P : Qc → Prop) `{!∀ x, Decision (P x)} xs :
  (∀ x, x ∈ xs → P x) → length (filter P xs) = length xs.
Proof.
  intros HP. induction xs as [|x xs IH]; [done|].
  rewrite filter_cons, decide_True by apply HP, list_elem_of_here.
  cbn. rewrite IH; [done|]. intros y Hy. by apply HP; right.
Qed.

Lemma filter_length_none (P : Qc → Prop) `{!∀ x, Decision (P x)} xs :
  (∀ x, x ∈ xs → ¬ P x) → length (filter P xs) = 0%nat.
Proof.
  intros HP. induction xs as [|x xs IH]; [done|].
  rewrite filter_cons, decide_False by apply HP, list_elem_of_here.
  apply IH. intros y Hy. by apply HP; right.
Qed.

(** Every class record counts values of the sorted data. *)
Lemma total_frequency_le sorted w : (0 ≤ w)%Z → ∀ todo lo,
  (total_frequency (classes sorted w todo lo)
   ≤ length (filter (Qcle lo) sorted))%nat.
Proof.
  intros Hw%Z2Qc_inj_le. induction todo as [|todo IH]; intros lo.
  - cbn. lia.
  - unfold total_frequency in *. cbn [classes fmap list_fmap sum_list].
    cbn [class_record frequency].
    etrans; [apply Nat.add_le_mono_l, IH|].
    apply filter_length_le3; unfold in_class.
    + by intros x [? _].
    + intros x Hx. qc_lra.
    + intros x [_ H1] H2. qc_lra.
Qed.

Lemma is_integer_spec (x : Qc) : is_integer x ↔ ∃ z : Z, x = Qc_of_Z z.
Proof.
  unfold is_integer. split; [by eauto|]. intros [z ->].
  cbn [Qc_of_Z this]. by rewrite Qfloor_Z.
Qed.

Lemma Qc_shift_le (lo : Qc) (a b : Z) :
  lo + Qc_of_Z a ≤ lo + Qc_of_Z b ↔ (a ≤ b)%Z.
Proof. by rewrite <-Qcplus_le_mono_l, <-Z2Qc_inj_le. Qed.

Lemma Qc_shift_lt (lo : Qc) (a b : Z) :
  lo + Qc_of_Z a < lo + Qc_of_Z b ↔ (a < b)%Z.
Proof. by rewrite <-Qcplus_lt_mono_l, <-Z2Qc_inj_lt. Qed.

(** When every value sits a whole number of units above [lo], the classes
    leave no gap: together they count the values in
    [lo <= v < lo + todo * w]. *)
Lemma total_frequency_eq sorted w : (0 ≤ w)%Z → ∀ todo lo,
  (∀ v, v ∈ sorted → is_integer (v - lo)) →
  total_frequency (classes sorted w todo lo)
  = length (filter
      (λ v, lo ≤ v ∧ v < lo + Qc_of_Z (Z.of_nat todo * w)) sorted).
Proof.
  intros Hw. induction todo as [|todo IH]; intros lo Hint.
  - cbn [classes]. symmetry. apply filter_length_none.
    intros v _ [H1 H2]. rewrite Z.mul_0_l in H2. qc_lra.
  - unfold total_frequency in *. cbn [classes fmap list_fmap sum_list].
    cbn [class_record frequency]. rewrite IH.
    + apply filter_length_split.
      * intros v [z Hz]%Hint%is_integer_spec.
        assert (v = lo + Qc_of_Z z) as -> by qc_lra.
        unfold in_class.
        replace (lo + Qc_of_Z w - 1) with (lo + Qc_of_Z (w - 1))
          by (rewrite Z2Qc_inj_sub; qc_lra).
        replace (lo + Qc_of_Z (w - 1) + 1
                 + Qc_of_Z (Z.of_nat todo * w))
          with (lo + Qc_of_Z (w + Z.of_nat todo * w))
          by (rewrite Z2Qc_inj_sub, Z2Qc_inj_add; qc_lra).
        replace (lo + Qc_of_Z (w - 1) + 1) with (lo + Qc_of_Z w)
          by (rewrite Z2Qc_inj_sub; qc_lra).
        replace (lo ≤ lo + Qc_of_Z z) with (lo + Qc_of_Z 0 ≤ lo + Qc_of_Z z)
          by (f_equal; qc_lra).
        rewrite !Qc_shift_le, !Qc_shift_lt. nia.
      * unfold in_class. intros v [_ H1] [H2 _]. qc_lra.
    + intros v [z Hz]%Hint%is_integer_spec. apply is_integer_spec.
      exists (z - w)%Z. rewrite Z2Qc_inj_sub. qc_lra.
Qed.

Lemma classes_last sorted w todo lo :
  last (classes sorted w (S todo) lo)
  = Some (class_record sorted w (lo + Qc_of_Z (Z.of_nat todo * w))).
Proof.
  rewrite last_lookup, classes_length. cbn [pred].
  destruct (classes sorted w (S todo) lo !! todo) as [c|] eqn:Hc.
  - by rewrite (classes_lookup _ _ _ _ _ _ Hc).
  - apply lookup_ge_None in Hc. rewrite classes_length in Hc. lia.
Qed.

(** ** The class width *)

Lemma raw_width_nonneg (lo hi : Qc) (k : Z) :
  lo ≤ hi → (1 ≤ k)%Z → 0 ≤ (hi - lo) / Qc_of_Z k.
Proof.
  intros Hle Hk. unfold Qcdiv. apply Qcmult_nonneg_nonneg; [qc_lra|].
  apply Qclt_le_weak, Qcinv_pos. rewrite <-Z2Qc_inj_0.
  apply (proj1 (Z2Qc_inj_lt 0 k)). lia.
Qed.

Lemma raw_width_pos (lo hi : Qc) (k : Z) :
  lo < hi → (1 ≤ k)%Z → 0 < (hi - lo) / Qc_of_Z k.
Proof.
  intros Hle Hk. unfold Qcdiv. apply Qcmult_pos_pos; [qc_lra|].
  apply Qcinv_pos. rewrite <-Z2Qc_inj_0. apply (proj1 (Z2Qc_inj_lt 0 k)). lia.
Qed.

Lemma raw_width_zero (lo : Qc) (k : Z) : (lo - lo) / Qc_of_Z k = 0.
Proof. replace (lo - lo) with (0 : Qc) by ring. apply Qcmult_0_l. Qed.

Lemma Math_ceil_nonneg (x : Qc) : 0 ≤ x → (0 ≤ Math_ceil x)%Z.
Proof.
  intros Hx. unfold Math_ceil. change 0%Z with (Qceiling 0).
  by apply Qceiling_resp_le.
Qed.

Lemma Math_ceil_pos (x : Qc) : 0 < x → (1 ≤ Math_ceil x)%Z.
Proof.
  intros Hx. unfold Math_ceil. pose proof (Qle_ceiling x) as Hc.
  assert (0 < inject_Z (Qceiling x))%Q as H0 by (eapply Qlt_le_trans; eauto).
  rewrite <-(Zlt_Qlt 0) in H0. lia.
Qed.

(** ** Sturges' rule: the integer search computes the real ceiling *)

Lemma sturges_search_spec n33 fuel : ∀ k0,
  (n33 ≤ 10 ^ (10 * (k0 + Z.of_nat fuel)))%Z →
  (n33 ≤ 10 ^ (10 * sturges_search n33 fuel k0))%Z
  ∧ (sturges_search n33 fuel k0 = k0
     ∨ (10 ^ (10 * (sturges_search n33 fuel k0 - 1)) < n33)%Z).
Proof.
  induction fuel as [|fuel IH]; intros k0 Hfuel; cbn [sturges_search].
  - rewrite Z.add_0_r in Hfuel. auto.
  - destruct (Z.leb_spec n33 (10 ^ (10 * k0))) as [Hle|Hgt]; [auto|].
    destruct (IH (k0 + 1)%Z) as [Hup [Heq|Hlow]].
    + by replace (k0 + 1 + Z.of_nat fuel)%Z
        with (k0 + Z.of_nat (S fuel))%Z by lia.
    + split; [done|]. right. rewrite Heq.
      by replace (k0 + 1 - 1)%Z with k0 by lia.
    + auto.
Qed.

Lemma sturges_fuel (n : nat) : (Z.of_nat n ^ 33 ≤ 10 ^ (10 * Z.of_nat n))%Z.
Proof.
  trans ((2 ^ Z.of_nat n) ^ 33)%Z.
  - apply Z.pow_le_mono_l. split; [lia|].
    apply Z.lt_le_incl, Z.pow_gt_lin_r; lia.
  - rewrite <-Z.pow_mul_r, (Z.mul_comm (Z.of_nat n)) by lia.
    rewrite !Z.pow_mul_r by lia.
    apply Z.pow_le_mono_l. by compute.
Qed.

Lemma ln_10_pos : (0 < ln 10)%R.
Proof. rewrite <-ln_1. apply ln_increasing; Lra.lra. Qed.

Lemma ln_le (x y : R) : (0 < x)%R → (x <= y)%R → (ln x <= ln y)%R.
Proof.
  intros Hx [Hlt| ->]; [|apply Rle_refl]. by apply Rlt_le, ln_increasing.
Qed.

Lemma ln_pow_Z (a : Z) (p : nat) :
  (0 < a)%Z → ln (IZR (a ^ Z.of_nat p)) = (INR p * ln (IZR a))%R.
Proof. intros Ha. rewrite <-pow_IZR. apply ln_pow. by apply (IZR_lt 0). Qed.

Lemma pow_pos_Z (a : Z) (p : nat) : (0 < a)%Z → (0 < IZR (a ^ Z.of_nat p))%R.
Proof. intros Ha. apply (IZR_lt 0). apply Z.pow_pos_nonneg; lia. Qed.

(** [n ^ 33 <= 10 ^ (10 * k)] says [3.3 * log10 n <= k]. *)
Lemma sturges_upper (n k : nat) :
  (1 ≤ n)%nat → (Z.of_nat n ^ 33 ≤ 10 ^ (10 * Z.of_nat k))%Z →
  (3.3 * Math_log10 (INR n) <= INR k)%R.
Proof.
  intros Hn H. change 33%Z with (Z.of_nat 33) in H.
  replace (10 * Z.of_nat k)%Z with (Z.of_nat (10 * k)) in H by lia.
  apply IZR_le, ln_le in H; [|apply pow_pos_Z; lia].
  rewrite !ln_pow_Z in H by lia. rewrite <-INR_IZR_INZ in H.
  rewrite mult_INR in H. cbn [INR] in H.
  unfold Math_log10. pose proof ln_10_pos as H10.
  apply (Rmult_le_reg_r (ln 10)); [done|].
  replace (3.3 * (ln (INR n) / ln 10) * ln 10)%R with (3.3 * ln (INR n))%R
    by (field; Lra.lra).
  Lra.lra.
Qed.

Lemma sturges_lower (n k : nat) :
  (1 ≤ n)%nat → (10 ^ (10 * Z.of_nat k) < Z.of_nat n ^ 33)%Z →
  (INR k < 3.3 * Math_log10 (INR n))%R.
Proof.
  intros Hn H. change 33%Z with (Z.of_nat 33) in H.
  replace (10 * Z.of_nat k)%Z with (Z.of_nat (10 * k)) in H by lia.
  apply IZR_lt, ln_increasing in H; [|apply pow_pos_Z; lia].
  rewrite !ln_pow_Z in H by lia. rewrite <-INR_IZR_INZ in H.
  rewrite mult_INR in H. cbn [INR] in H.
  unfold Math_log10. pose proof ln_10_pos as H10.
  apply (Rmult_lt_reg_r (ln 10)); [done|].
  replace (3.3 * (ln (INR n) / ln 10) * ln 10)%R with (3.3 * ln (INR n))%R
    by (field; Lra.lra).
  Lra.lra.
Qed.

Lemma log10_nonneg (n : nat) : (1 ≤ n)%nat → (0 <= Math_log10 (INR n))%R.
Proof.
  intros Hn. unfold Math_log10. pose proof ln_10_pos.
  apply Rmult_le_pos; [|by apply Rlt_le, Rinv_0_lt_compat].
  rewrite <-ln_1. apply ln_le; [Lra.lra|]. by apply (le_INR 1).
Qed.

Lemma ceil_sturges_correct (n : nat) :
  (1 ≤ n)%nat → Zceil (sturges n) = ceil_sturges n.
Proof.
  intros Hn. apply Zceil_eq. unfold ceil_sturges, sturges.
  pose proof (sturges_search_ge (Z.of_nat n ^ 33) n 0) as Hk0.
  destruct (sturges_search_spec (Z.of_nat n ^ 33) n 0) as [Hup Hlow].
  { rewrite Z.add_0_l. apply sturges_fuel. }
  set (k := sturges_search (Z.of_nat n ^ 33) n 0) in *.
  rewrite <-(Z2Nat.id k) in Hup, Hlow |- * by done.
  rewrite plus_IZR, <-INR_IZR_INZ.
  apply sturges_upper in Hup; [|done].
  pose proof (log10_nonneg n Hn) as H0.
  split; [|Lra.lra].
  destruct (Z.to_nat k) as [|j] eqn:Hj; [cbn [INR]; Lra.lra|].
  destruct Hlow as [Hlow|Hlow]; [lia|].
  replace (Z.of_nat (S j) - 1)%Z with (Z.of_nat j) in Hlow by lia.
  apply sturges_lower in Hlow; [|done].
  rewrite S_INR. Lra.lra.
Qed.

(** ** Sorting *)

Lemma merge_sort_Permutation_eq (xs ys : list Qc) :
  xs ≡ₚ ys → merge_sort Qcle xs = merge_sort Qcle ys.
Proof.
  intros Hp. apply (Sorted_unique Qcle); [apply Sorted_merge_sort; apply _..|].
  by rewrite !merge_sort_Permutation.
Qed.

Lemma merge_sort_length (xs : list Qc) :
  length (merge_sort Qcle xs) = length xs.
Proof. apply Permutation_length, merge_sort_Permutation. Qed.

(** A closed equation between numbers, lists of numbers and the like is
    decided by evaluation. *)
Ltac by_compute :=
  match goal with |- ?P => apply (@bool_decide_unpack P _) end;
  vm_compute; exact I.

(** ** The upload handler on a file without numbers *)

Lemma try_block_empty (file : File) (σ : World) :
  fileExtension file = "csv" ∨ fileExtension file ∈ ["xlsx"; "xls"] →
  numeric_cells (cells file) = [] →
  ∃ σ', try_block file σ = (inl no_numeric_data, σ')
    ∧ grows σ σ' ∧ st_results σ' = st_results σ.
Proof.
  intros Hext Hnone. unfold try_block, mbind, M_bind. rewrite Hnone.
  destruct (array_new_run [] σ) as (l0 & σ0 & -> & Hg0 & _ & _ & Hr0).
  destruct (array_new_run [] σ0) as (l & σ1 & Hnew & Hg1 & Hl & _ & Hr1).
  assert (grows σ σ1) as Hg by (by eapply grows_trans).
  exists σ1.
  destruct (decide (fileExtension file = "csv")) as [|Hcsv];
    [|rewrite decide_True by (by destruct Hext)];
    rewrite Hnew; cbn [mret M_ret]; rewrite (Array_length_run l [] σ1 Hl);
    (split; [done|]); split; [done|congruence|done|congruence].
Qed.

(** The handler on a CSV file with two numbers and a text cell, and on a
    file of another type. *)
Example upload_then_calculate :
  let file := {| fileExtension := "csv";
                 cells := [NumberCell (Qc_of_Z 5); OtherCell;
                           NumberCell (Qc_of_Z 2)] |} in
  let σ' := exec (handleFileUpload (Some file)) initial_world in
  st_error σ' = "" ∧ st_loading σ' = false ∧ st_fileSelected σ' = true
  ∧ st_arrays σ' !! st_data σ' = Some [Qc_of_Z 5; Qc_of_Z 2]
  ∧ st_results σ' = distribution [Qc_of_Z 5; Qc_of_Z 2].
Proof. split_and!; by vm_compute. Qed.

Example upload_unsupported :
  let file := {| fileExtension := "txt"; cells := [] |} in
  let σ' := exec (handleFileUpload (Some file)) initial_world in
  st_error σ' = unsupported_format ∧ st_results σ' = Null.
Proof. by vm_compute. Qed.

(** * The claims *)




(** C2 (as the code has it): for the input [5,5,5] the calculator returns
    [range = 0], [numberOfClasses = 3] and [classWidth = 0], and three
    classes that all start at 5 and end at 4, each with frequency 0. *)
Theorem scenario_5_5_5 (σ : World) (values : loc) :
  st_arrays σ !! values = Some [Qc_of_Z 5; Qc_of_Z 5; Qc_of_Z 5] →
  ∃ r, results_after values σ = Computed r
    ∧ range r = 0
    ∧ numberOfClasses r = 3%Z
    ∧ classWidth r = 0%Z
    ∧ classInterval <$> frequencyTable r
      = [(Qc_of_Z 5, Qc_of_Z 4); (Qc_of_Z 5, Qc_of_Z 4);
         (Qc_of_Z 5, Qc_of_Z 4)]
    ∧ frequency <$> frequencyTable r = [0; 0; 0]%nat.
Proof.
  intros Hv.
  destruct (calculate_run σ values _ Hv) as (σ' & Hrun & _ & Hres).
  unfold results_after, exec. rewrite Hrun. cbn [snd]. rewrite Hres.
  eexists. split; [reflexivity|].
  split_and!; [by_compute | by vm_compute | by vm_compute | by_compute
              | by vm_compute].
Qed.

(** The statement in the mounted component, the array at location 1. *)
Lemma scenario_5_5_5_witness :
  ∃ r, results_after 1%nat
         (world_with [Qc_of_Z 5; Qc_of_Z 5; Qc_of_Z 5]) = Computed r
    ∧ range r = 0
    ∧ numberOfClasses r = 3%Z
    ∧ classWidth r = 0%Z
    ∧ classInterval <$> frequencyTable r
      = [(Qc_of_Z 5, Qc_of_Z 4); (Qc_of_Z 5, Qc_of_Z 4);
         (Qc_of_Z 5, Qc_of_Z 4)]
    ∧ frequency <$> frequencyTable r = [0; 0; 0]%nat.
Proof.
  apply (scenario_5_5_5
           (world_with [Qc_of_Z 5; Qc_of_Z 5; Qc_of_Z 5]) 1%nat).
  reflexivity.
Defined.

(** C2, counterexample: for [5,5,5] the class width is not 1, the classes
    are not [5-5], [6-6], [7-7] and the frequencies are not [3, 0, 0]. *)
Lemma scenario_5_5_5_not_as_stated :
  ∃ r, results_after 1%nat
         (world_with [Qc_of_Z 5; Qc_of_Z 5; Qc_of_Z 5]) = Computed r
    ∧ classWidth r ≠ 1%Z
    ∧ classInterval <$> frequencyTable r
      ≠ [(Qc_of_Z 5, Qc_of_Z 5); (Qc_of_Z 6, Qc_of_Z 6);
         (Qc_of_Z 7, Qc_of_Z 7)]
    ∧ frequency <$> frequencyTable r ≠ [3; 0; 0]%nat.
Proof.
  destruct (calculate_run (world_with [Qc_of_Z 5; Qc_of_Z 5; Qc_of_Z 5])
              1%nat _ eq_refl) as (σ' & Hrun & _ & Hres).
  unfold results_after, exec. rewrite Hrun. cbn [snd]. rewrite Hres.
  eexists. split; [reflexivity|].
  split_and!; [by vm_compute | by_compute | by vm_compute].
Qed.




(** C4: for every non-empty input of length [n], [rawNumberOfClasses] is
    [1 + 3.3 * log10(n)], [numberOfClasses] is its ceiling, and
    [numberOfClasses] is at least 1. *)
Theorem numberOfClasses_is_sturges (σ : World) (values : loc)
    (xs : list Qc) :
  st_arrays σ !! values = Some xs → xs ≠ [] →
  ∃ r, results_after values σ = Computed r
    ∧ rawNumberOfClasses r
      = (1 + 3.3 * Math_log10 (INR (length xs)))%R
    ∧ numberOfClasses r
      = Zceil (1 + 3.3 * Math_log10 (INR (length xs)))
    ∧ (1 ≤ numberOfClasses r)%Z.
Proof.
  intros Hv Hne.
  destruct (run_nonempty σ values xs Hv Hne) as (lo & hi & Hr & _).
  eexists. split; [exact Hr|].
  cbn [table_of rawNumberOfClasses numberOfClasses].
  rewrite merge_sort_length. split_and!.
  - done.
  - symmetry. apply ceil_sturges_correct. destruct xs; [done|cbn; lia].
  - apply ceil_sturges_pos.
Qed.

(** The statement at the input [2, 8, 5]. *)
Lemma numberOfClasses_is_sturges_witness :
  ∃ r, results_after 1%nat (world_with [Qc_of_Z 2; Qc_of_Z 8; Qc_of_Z 5])
       = Computed r
    ∧ rawNumberOfClasses r = (1 + 3.3 * Math_log10 (INR 3))%R
    ∧ numberOfClasses r = Zceil (1 + 3.3 * Math_log10 (INR 3))
    ∧ (1 ≤ numberOfClasses r)%Z.
Proof.
  apply (numberOfClasses_is_sturges
           (world_with [Qc_of_Z 2; Qc_of_Z 8; Qc_of_Z 5]) 1%nat
           [Qc_of_Z 2; Qc_of_Z 8; Qc_of_Z 5]);
    [reflexivity | discriminate].
Defined.

(** C5: the result does not depend on the order of the input: two arrays
    whose contents are permutations of each other give the same [results]
    object, whatever else the stores hold. *)
Theorem permutation_invariant (σ σ' : World) (values values' : loc)
    (xs ys : list Qc) :
  st_arrays σ !! values = Some xs → st_arrays σ' !! values' = Some ys →
  xs ≠ [] → xs ≡ₚ ys →
  ∃ r, results_after values σ = Computed r
    ∧ results_after values' σ' = Computed r.
Proof.
  intros Hv Hv' Hne Hp.
  destruct (calculate_run σ values xs Hv) as (σ1 & Hrun & _ & Hres).
  destruct (calculate_run σ' values' ys Hv') as (σ2 & Hrun' & _ & Hres').
  destruct (distribution_nonempty xs Hne) as (lo & hi & Hd & _).
  unfold results_after, exec. rewrite Hrun, Hrun'. cbn [snd].
  rewrite Hres, Hres'. eexists. split; [exact Hd|].
  rewrite <-Hd. unfold distribution.
  by rewrite (merge_sort_Permutation_eq xs ys Hp).
Qed.

(** The statement at [3, 1, 3] and [1, 3, 3]. *)
Lemma permutation_invariant_witness :
  ∃ r, results_after 1%nat (world_with [Qc_of_Z 3; Qc_of_Z 1; Qc_of_Z 3])
       = Computed r
    ∧ results_after 1%nat (world_with [Qc_of_Z 1; Qc_of_Z 3; Qc_of_Z 3])
      = Computed r.
Proof.
  apply (permutation_invariant _ _ 1%nat 1%nat
           [Qc_of_Z 3; Qc_of_Z 1; Qc_of_Z 3]
           [Qc_of_Z 1; Qc_of_Z 3; Qc_of_Z 3]);
    [reflexivity | reflexivity | discriminate |].
  apply Permutation_swap.
Defined.

(** C6: when the selected file yields no numeric value, the upload handler
    stops with the error "Tidak ada data numerik yang ditemukan dalam
    file." before [calculateFrequencyDistribution] is called: [results] and
    [data] keep their previous values, so nothing is computed from an empty
    sequence. *)
Theorem empty_input_rejected (σ : World) (file : File) :
  fileExtension file = "csv" ∨ fileExtension file ∈ ["xlsx"; "xls"] →
  numeric_cells (cells file) = [] →
  let σ' := exec (handleFileUpload (Some file)) σ in
  st_error σ' = no_numeric_data
  ∧ st_results σ' = st_results σ
  ∧ st_data σ' = st_data σ
  ∧ st_loading σ' = false.
Proof.
  intros Hext Hnone σ'.
  destruct (try_block_empty file
              (setFileSelected true (setLoading true (setError "" σ).2).2).2
              Hext Hnone) as (σ1 & Hrun & (_ & Hd & _) & Hr).
  unfold σ', exec, handleFileUpload, mbind, M_bind.
  cbn [setError setLoading setFileSelected snd] in Hrun |- *.
  rewrite Hrun. cbn. by rewrite Hr, Hd.
Qed.

(** The statement for a CSV file with two text cells. *)
Lemma empty_input_rejected_witness :
  let file := {| fileExtension := "csv"; cells := [OtherCell; OtherCell] |} in
  let σ' := exec (handleFileUpload (Some file)) initial_world in
  st_error σ' = no_numeric_data
  ∧ st_results σ' = st_results initial_world
  ∧ st_data σ' = st_data initial_world
  ∧ st_loading σ' = false.
Proof.
  apply (empty_input_rejected initial_world
           {| fileExtension := "csv"; cells := [OtherCell; OtherCell] |});
    [left; reflexivity | reflexivity].
Defined.



(** C8: for the input [1,2,...,10] the calculator returns [range = 9],
    [rawNumberOfClasses = 4.3], [numberOfClasses = 5],
    [rawClassWidth = 1.8], [classWidth = 2] and the classes [1-2], [3-4],
    [5-6], [7-8], [9-10], each with frequency 2, 10 in all. *)
Theorem scenario_1_to_10 (σ : World) (values : loc) :
  st_arrays σ !! values
  = Some (Qc_of_Z <$> [1; 2; 3; 4; 5; 6; 7; 8; 9; 10]%Z) →
  ∃ r, results_after values σ = Computed r
    ∧ range r = Qc_of_Z 9
    ∧ rawNumberOfClasses r = 4.3%R
    ∧ numberOfClasses r = 5%Z
    ∧ rawClassWidth r = Q2Qc (18 # 10)
    ∧ classWidth r = 2%Z
    ∧ classInterval <$> frequencyTable r
      = [(Qc_of_Z 1, Qc_of_Z 2); (Qc_of_Z 3, Qc_of_Z 4);
         (Qc_of_Z 5, Qc_of_Z 6); (Qc_of_Z 7, Qc_of_Z 8);
         (Qc_of_Z 9, Qc_of_Z 10)]
    ∧ frequency <$> frequencyTable r = [2; 2; 2; 2; 2]%nat
    ∧ total_frequency (frequencyTable r) = 10%nat.
Proof.
  intros Hv.
  destruct (calculate_run σ values _ Hv) as (σ' & Hrun & _ & Hres).
  unfold results_after, exec. rewrite Hrun. cbn [snd]. rewrite Hres.
  eexists. split; [reflexivity|].
  split_and!; try by_compute; try (by vm_compute).
  cbn [table_of rawNumberOfClasses]. rewrite merge_sort_length.
  unfold sturges, Math_log10.
  replace (INR _) with 10%R by (cbn; Lra.lra).
  pose proof ln_10_pos.
  replace (ln 10 / ln 10)%R with 1%R by (field; Lra.lra). Lra.lra.
Qed.

(** The statement in the mounted component, the array at location 1. *)
Lemma scenario_1_to_10_witness :
  ∃ r, results_after 1%nat
         (world_with (Qc_of_Z <$> [1; 2; 3; 4; 5; 6; 7; 8; 9; 10]%Z))
       = Computed r
    ∧ range r = Qc_of_Z 9
    ∧ rawNumberOfClasses r = 4.3%R
    ∧ numberOfClasses r = 5%Z
    ∧ rawClassWidth r = Q2Qc (18 # 10)
    ∧ classWidth r = 2%Z
    ∧ classInterval <$> frequencyTable r
      = [(Qc_of_Z 1, Qc_of_Z 2); (Qc_of_Z 3, Qc_of_Z 4);
         (Qc_of_Z 5, Qc_of_Z 6); (Qc_of_Z 7, Qc_of_Z 8);
         (Qc_of_Z 9, Qc_of_Z 10)]
    ∧ frequency <$> frequencyTable r = [2; 2; 2; 2; 2]%nat
    ∧ total_frequency (frequencyTable r) = 10%nat.
Proof.
  apply (scenario_1_to_10
           (world_with (Qc_of_Z <$> [1; 2; 3; 4; 5; 6; 7; 8; 9; 10]%Z))
           1%nat).
  reflexivity.
Defined.

(** C9: a call leaves its argument array, and every other array that
    existed, with the contents it had (the sort works on a copy); of the
    component state only [results] changes, and the new [results] is a
    function of the contents of the argument alone. *)
Theorem input_unchanged (σ : World) (values : loc) (xs : list Qc) :
  st_arrays σ !! values = Some xs →
  let σ' := exec (calculateFrequencyDistribution values) σ in
  st_arrays σ' !! values = Some xs
  ∧ (∀ a ys, st_arrays σ !! a = Some ys → st_arrays σ' !! a = Some ys)
  ∧ st_data σ' = st_data σ
  ∧ st_error σ' = st_error σ
  ∧ st_loading σ' = st_loading σ
  ∧ st_fileSelected σ' = st_fileSelected σ
  ∧ st_results σ' = distribution xs.
Proof.
  intros Hv σ'.
  destruct (calculate_run σ values xs Hv) as (σ1 & Hrun & Hg & Hres).
  assert (σ' = σ1) as -> by (unfold σ', exec; by rewrite Hrun).
  pose proof Hg as (_ & ? & ? & ? & ?).
  split_and!; try done; eauto using grows_lookup.
Qed.

(** The statement at the input [3, 1, 2]. *)
Lemma input_unchanged_witness :
  let xs := [Qc_of_Z 3; Qc_of_Z 1; Qc_of_Z 2] in
  let σ' := exec (calculateFrequencyDistribution 1%nat) (world_with xs) in
  st_arrays σ' !! 1%nat = Some xs
  ∧ (∀ a ys, st_arrays (world_with xs) !! a = Some ys →
             st_arrays σ' !! a = Some ys)
  ∧ st_data σ' = st_data (world_with xs)
  ∧ st_error σ' = st_error (world_with xs)
  ∧ st_loading σ' = st_loading (world_with xs)
  ∧ st_fileSelected σ' = st_fileSelected (world_with xs)
  ∧ st_results σ' = distribution xs.
Proof.
  apply (input_unchanged (world_with [Qc_of_Z 3; Qc_of_Z 1; Qc_of_Z 2])
           1%nat [Qc_of_Z 3; Qc_of_Z 1; Qc_of_Z 2]).
  reflexivity.
Defined.

(** The store does track mutation: sorting an array in place, without the
    copy, changes what its location holds. *)
Example Array_sort_in_place :
  st_arrays (exec (Array_sort 1%nat) (world_with [Qc_of_Z 3; Qc_of_Z 1]))
    !! 1%nat
  = Some [Qc_of_Z 1; Qc_of_Z 3].
Proof. by vm_compute. Qed.

Lemma total_frequency_zero (t : list ClassRecord) :
  (∀ c, c ∈ t → frequency c = 0%nat) → total_frequency t = 0%nat.
Proof.
  unfold total_frequency. induction t as [|c t IH]; intros Hz; [done|].
  cbn. rewrite (Hz c), IH; [done| |apply list_elem_of_here].
  intros c' Hc'. by apply Hz, list_elem_of_further.
Qed.



(** * Further properties of the code *)

(** ** The upload handler, case by case *)

Lemma handleFileUpload_try (file : File) (σ σ1 : World)
    (out : string + unit) :
  try_block file (entering σ) = (out, σ1) →
  exec (handleFileUpload (Some file)) σ
  = match out with
    | inl message =>
        (setLoading false
           (setError (if decide (message = "") then read_failure
                      else message) σ1).2).2
    | inr _ => (setLoading false σ1).2
    end.
Proof.
  intros Hrun. unfold exec, handleFileUpload, mbind, M_bind.
  cbn [setError setLoading setFileSelected snd]. unfold entering in Hrun.
  cbn [setError setLoading setFileSelected snd] in Hrun. rewrite Hrun.
  by destruct out.
Qed.

Lemma try_block_unsupported (file : File) (σ : World) :
  ¬ supported file →
  ∃ σ', try_block file σ = (inl unsupported_format, σ')
    ∧ grows σ σ' ∧ st_results σ' = st_results σ.
Proof.
  intros Hno. unfold try_block, mbind, M_bind.
  destruct (array_new_run [] σ) as (l0 & σ0 & -> & Hg0 & _ & _ & Hr0).
  exists σ0.
  rewrite decide_False by (intros ?; apply Hno; by left).
  rewrite decide_False by (intros ?; apply Hno; by right).
  by cbn.
Qed.

Lemma try_block_success (file : File) (σ : World) :
  supported file → numeric_cells (cells file) ≠ [] →
  ∃ values σ',
    try_block file σ = (inr tt, σ')
    ∧ st_arrays σ ⊆ st_arrays σ'
    ∧ st_arrays σ !! values = None
    ∧ st_data σ' = values
    ∧ st_arrays σ' !! values = Some (numeric_cells (cells file))
    ∧ st_results σ' = distribution (numeric_cells (cells file))
    ∧ st_error σ' = st_error σ
    ∧ st_loading σ' = st_loading σ
    ∧ st_fileSelected σ' = st_fileSelected σ.
Proof.
  intros Hext Hsome. unfold try_block, mbind, M_bind.
  set (nums := numeric_cells (cells file)) in *.
  destruct (array_new_run [] σ) as (l0 & σ0 & -> & Hg0 & _ & _ & _).
  destruct (array_new_run nums σ0)
    as (l & σ1 & Hnew & Hg1 & Hl & Hfresh & _).
  assert (∃ σ3, calculateFrequencyDistribution l (setData l σ1).2
                = (tt, σ3)
            ∧ grows (setData l σ1).2 σ3
            ∧ st_results σ3 = distribution nums) as (σ3 & Hcalc & Hg3 & Hr3)
    by (by apply calculate_run).
  exists l, σ3.
  cbn [setData snd] in Hcalc.
  assert (length nums ≠ 0%nat) as Hlen by (by destruct nums).
  destruct (decide (fileExtension file = "csv")) as [|Hcsv];
    [|rewrite decide_True by (by destruct Hext)];
    rewrite Hnew; cbn [mret M_ret]; rewrite (Array_length_run l nums σ1 Hl);
    rewrite (decide_False (P := length nums = 0%nat)) by done;
    cbn [setData]; rewrite Hcalc; (split; [done|]).
  all: destruct Hg0 as (Ha0 & Hd0 & He0 & Hl0 & Hf0).
  all: destruct Hg1 as (Ha1 & Hd1 & He1 & Hl1 & Hf1).
  all: destruct Hg3 as (Ha3 & Hd3 & He3 & Hl3 & Hf3).
  all: cbn in Ha3, Hd3, He3, Hl3, Hf3.
  all: split_and!;
    [ by do 2 (etrans; [eassumption|])
    | by eapply lookup_weaken_None
    | done
    | by eapply lookup_weaken
    | done
    | congruence.. ].
Qed.

Lemma handleFileUpload_success (file : File) (σ : World) :
  supported file → numeric_cells (cells file) ≠ [] →
  ∃ values,
    st_data (exec (handleFileUpload (Some file)) σ) = values
    ∧ st_arrays σ !! values = None
    ∧ st_arrays (exec (handleFileUpload (Some file)) σ) !! values
      = Some (numeric_cells (cells file))
    ∧ st_results (exec (handleFileUpload (Some file)) σ)
      = distribution (numeric_cells (cells file))
    ∧ st_error (exec (handleFileUpload (Some file)) σ) = ""
    ∧ st_loading (exec (handleFileUpload (Some file)) σ) = false
    ∧ st_fileSelected (exec (handleFileUpload (Some file)) σ) = true
    ∧ st_arrays σ ⊆ st_arrays (exec (handleFileUpload (Some file)) σ).
Proof.
  intros Hext Hsome.
  destruct (try_block_success file (entering σ) Hext Hsome)
    as (l & σ1 & Hrun & Ha & Hfresh & Hd & Hl & Hr & He & _ & Hf).
  rewrite (handleFileUpload_try file σ σ1 _ Hrun). exists l. by cbn.
Qed.

Lemma handleFileUpload_failure (file : File) (σ : World) :
  ¬ (supported file ∧ numeric_cells (cells file) ≠ []) →
  st_results (exec (handleFileUpload (Some file)) σ) = st_results σ
  ∧ st_data (exec (handleFileUpload (Some file)) σ) = st_data σ
  ∧ st_arrays σ ⊆ st_arrays (exec (handleFileUpload (Some file)) σ)
  ∧ st_error (exec (handleFileUpload (Some file)) σ)
    = (if decide (supported file) then no_numeric_data
       else unsupported_format)
  ∧ st_loading (exec (handleFileUpload (Some file)) σ) = false
  ∧ st_fileSelected (exec (handleFileUpload (Some file)) σ) = true.
Proof.
  intros Hbad. destruct (decide (supported file)) as [Hext|Hext].
  - assert (numeric_cells (cells file) = []) as Hnone.
    { destruct (numeric_cells (cells file)) eqn:E; [done|].
      exfalso. by apply Hbad. }
    destruct (try_block_empty file (entering σ) Hext Hnone)
      as (σ1 & Hrun & (Ha & Hd & _ & _ & Hf) & Hr).
    rewrite (handleFileUpload_try file σ σ1 _ Hrun). by cbn.
  - destruct (try_block_unsupported file (entering σ) Hext)
      as (σ1 & Hrun & (Ha & Hd & _ & _ & Hf) & Hr).
    rewrite (handleFileUpload_try file σ σ1 _ Hrun). by cbn.
Qed.

(** X1: whatever is selected, the handler ends with [loading] off and
    [fileSelected] telling whether a file was selected, and every array that
    existed keeps its contents; with no file selected it only clears the
    error. *)
Theorem upload_settles (e : option File) (σ : World) :
  st_loading (exec (handleFileUpload e) σ) = false
  ∧ st_fileSelected (exec (handleFileUpload e) σ) = bool_decide (is_Some e)
  ∧ st_arrays σ ⊆ st_arrays (exec (handleFileUpload e) σ)
  ∧ exec (handleFileUpload None) σ
    = {| st_arrays := st_arrays σ; st_data := st_data σ;
         st_results := st_results σ; st_error := "";
         st_loading := false; st_fileSelected := false |}.
Proof.
  destruct e as [file|]; [|by cbn].
  split_and!; [..|done];
    destruct (decide (supported file ∧ numeric_cells (cells file) ≠ []))
      as [[Hext Hsome]|Hbad].
  all: try (destruct (handleFileUpload_success file σ Hext Hsome)
              as (l & ? & ? & ? & ? & ? & ? & ? & ?); done).
  all: destruct (handleFileUpload_failure file σ Hbad)
         as (? & ? & ? & ? & ? & ?); done.
Qed.

(** X2: a file whose extension is not csv, xlsx or xls is refused with the
    message "Format file tidak didukung...", whatever it contains; [results]
    and [data] keep their values. *)
Theorem unsupported_format_rejected (file : File) (σ : World) :
  ¬ supported file →
  st_error (exec (handleFileUpload (Some file)) σ) = unsupported_format
  ∧ st_results (exec (handleFileUpload (Some file)) σ) = st_results σ
  ∧ st_data (exec (handleFileUpload (Some file)) σ) = st_data σ.
Proof.
  intros Hext.
  destruct (handleFileUpload_failure file σ) as (? & ? & _ & He & _);
    [by intros [? _]|].
  by rewrite decide_False in He.
Qed.

(** The statement for a text file that holds a number. *)
Lemma unsupported_format_rejected_witness :
  let file := {| fileExtension := "txt";
                 cells := [NumberCell (Qc_of_Z 4)] |} in
  st_error (exec (handleFileUpload (Some file)) initial_world)
  = unsupported_format
  ∧ st_results (exec (handleFileUpload (Some file)) initial_world)
    = st_results initial_world
  ∧ st_data (exec (handleFileUpload (Some file)) initial_world)
    = st_data initial_world.
Proof.
  apply (unsupported_format_rejected
           {| fileExtension := "txt"; cells := [NumberCell (Qc_of_Z 4)] |}
           initial_world).
  by_compute.
Defined.

(** X3: a csv, xlsx or xls file with at least one number is accepted: the
    error is cleared, [data] is a new array that holds the file's numbers
    in file order (other cells dropped), and [results] is computed from
    exactly those numbers, whatever [results] was before. *)
Theorem upload_computes_distribution (file : File) (σ : World) :
  supported file → numeric_cells (cells file) ≠ [] →
  st_error (exec (handleFileUpload (Some file)) σ) = ""
  ∧ st_arrays σ !! st_data (exec (handleFileUpload (Some file)) σ) = None
  ∧ st_arrays (exec (handleFileUpload (Some file)) σ)
      !! st_data (exec (handleFileUpload (Some file)) σ)
    = Some (numeric_cells (cells file))
  ∧ st_results (exec (handleFileUpload (Some file)) σ)
    = distribution (numeric_cells (cells file))
  ∧ ∃ r, st_results (exec (handleFileUpload (Some file)) σ) = Computed r.
Proof.
  intros Hext Hsome.
  destruct (handleFileUpload_success file σ Hext Hsome)
    as (l & <- & ? & ? & Hr & ? & _).
  split_and!; [done..|].
  destruct (distribution_nonempty _ Hsome) as (lo & hi & Hd & _).
  rewrite Hr, Hd. eauto.
Qed.

(** The statement for a spreadsheet with the cells 5, text, 2. *)
Lemma upload_computes_distribution_witness :
  let file := {| fileExtension := "xlsx";
                 cells := [NumberCell (Qc_of_Z 5); OtherCell;
                           NumberCell (Qc_of_Z 2)] |} in
  st_error (exec (handleFileUpload (Some file)) initial_world) = ""
  ∧ st_arrays initial_world
      !! st_data (exec (handleFileUpload (Some file)) initial_world) = None
  ∧ st_arrays (exec (handleFileUpload (Some file)) initial_world)
      !! st_data (exec (handleFileUpload (Some file)) initial_world)
    = Some [Qc_of_Z 5; Qc_of_Z 2]
  ∧ st_results (exec (handleFileUpload (Some file)) initial_world)
    = distribution [Qc_of_Z 5; Qc_of_Z 2]
  ∧ ∃ r, st_results (exec (handleFileUpload (Some file)) initial_world)
         = Computed r.
Proof.
  apply (upload_computes_distribution
           {| fileExtension := "xlsx";
              cells := [NumberCell (Qc_of_Z 5); OtherCell;
                        NumberCell (Qc_of_Z 2)] |} initial_world).
  - by_compute.
  - discriminate.
Defined.

(** ** The grids *)

Lemma Qceiling_unique (x : Q) (z : Z) :
  (inject_Z (z - 1) < x)%Q → (x <= inject_Z z)%Q → Qceiling x = z.
Proof.
  intros Hlow Hup. pose proof (Qle_ceiling x) as H1.
  pose proof (Qceiling_lt x) as H2.
  assert (inject_Z (z - 1) < inject_Z (Qceiling x))%Q as H3
    by (eapply Qlt_le_trans; eauto).
  assert (inject_Z (Qceiling x - 1) < inject_Z z)%Q as H4
    by (eapply Qlt_le_trans; eauto).
  rewrite <-Zlt_Qlt in H3, H4. lia.
Qed.

Lemma Math_ceil_tenth (n : nat) :
  Z.to_nat (Math_ceil (Qc_of_Z (Z.of_nat n) / Qc_of_Z 10))
  = ((n + 9) / 10)%nat.
Proof.
  assert (Math_ceil (Qc_of_Z (Z.of_nat n) / Qc_of_Z 10)
          = ((Z.of_nat n + 9) / 10)%Z) as ->.
  { unfold Math_ceil.
    pose proof (Z.div_mod (Z.of_nat n + 9) 10 ltac:(lia)) as Hdm.
    pose proof (Z.mod_pos_bound (Z.of_nat n + 9) 10 ltac:(lia)) as Hmod.
    set (z := ((Z.of_nat n + 9) / 10)%Z) in *.
    assert (Qc_of_Z (10 * (z - 1)) < Qc_of_Z (Z.of_nat n)) as Hlow
      by (apply (proj1 (Z2Qc_inj_lt _ _)); lia).
    assert (Qc_of_Z (Z.of_nat n) ≤ Qc_of_Z (10 * z)) as Hup
      by (apply (proj1 (Z2Qc_inj_le _ _)); lia).
    rewrite Z2Qc_inj_mul in Hlow, Hup.
    unfold Qcdiv, Qcmult, Qcinv, Qcle, Qclt, Qc_of_Z, Q2Qc in *.
    cbn [this] in *. rewrite ?Qred_correct in *.
    change (inject_Z 10) with 10%Q in *.
    set (a := inject_Z (Z.of_nat n)) in *.
    apply Qceiling_unique; change (a * / 10)%Q with (a / 10)%Q.
    - apply Qlt_shift_div_l; [done|].
      set (b := inject_Z (z - 1)) in *. clearbody a b. Lqa.lra.
    - apply Qle_shift_div_r; [done|].
      set (b := inject_Z z) in *. clearbody a b. Lqa.lra. }
  rewrite Z2Nat.inj_div, Z2Nat.inj_add, Nat2Z.id by lia. done.
Qed.

Lemma grid_cell_at (d : list Qc) (rowIndex colIndex : nat) :
  grid_cell d rowIndex colIndex = cell_at d (rowIndex * 10 + colIndex).
Proof.
  unfold grid_cell, cell_at. case_decide as Hlt; [done|].
  by rewrite lookup_ge_None_2 by lia.
Qed.

Lemma grid_row_at (d : list Qc) (rowIndex : nat) :
  grid_row d rowIndex = cell_at d <$> seq (rowIndex * 10) 10.
Proof.
  unfold grid_row.
  rewrite <-(Nat.add_0_r (rowIndex * 10)) at 1.
  rewrite <-fmap_add_seq, <-list_fmap_compose.
  apply list_fmap_ext. intros _ colIndex _. apply grid_cell_at.
Qed.

Lemma concat_grid_rows (d : list Qc) (rows : nat) :
  concat (grid_row d <$> seq 0 rows) = cell_at d <$> seq 0 (rows * 10).
Proof.
  induction rows as [|rows IH]; [done|].
  rewrite seq_S, fmap_app, concat_app, IH. cbn [fmap list_fmap concat].
  rewrite app_nil_r, grid_row_at.
  replace (S rows * 10)%nat with (rows * 10 + 10)%nat by lia.
  by rewrite seq_app, fmap_app.
Qed.

Lemma cell_at_seq (d : list Qc) : ∀ j m,
  (length d ≤ m)%nat →
  (λ i, cell_at d (i - j)) <$> seq j m
  = (Shown <$> d) ++ replicate (m - length d) Blank.
Proof.
  induction d as [|x d IH]; intros j m Hm.
  - cbn [length fmap list_fmap app]. rewrite Nat.sub_0_r.
    clear Hm. revert j. induction m as [|m IHm]; intros j; [done|].
    cbn. f_equal. rewrite <-(IHm (S j)). apply list_fmap_ext.
    intros _ i _. unfold cell_at. by rewrite !lookup_nil.
  - destruct m as [|m]; [cbn in Hm; lia|].
    cbn [seq fmap list_fmap length app Nat.sub].
    rewrite Nat.sub_diag. f_equal.
    rewrite <-(IH (S j) m) by (cbn in Hm; lia).
    apply list_fmap_ext. intros _ i [Hj Hi]%list_elem_of_lookup_2%elem_of_seq.
    unfold cell_at. by replace (i - j)%nat with (S (i - S j)) by lia.
Qed.

Lemma concat_data_grid (d : list Qc) :
  concat (data_grid d)
  = (Shown <$> d)
    ++ replicate ((length d + 9) / 10 * 10 - length d) Blank.
Proof.
  unfold data_grid. rewrite Math_ceil_tenth, concat_grid_rows.
  rewrite <-(cell_at_seq d 0) by (pose proof (Nat.div_mod_eq (length d + 9) 10);
    pose proof (Nat.mod_upper_bound (length d + 9) 10); lia).
  apply list_fmap_ext. intros _ i _. by rewrite Nat.sub_0_r.
Qed.

Lemma shown_values_app_blank (d : list Qc) (b : nat) :
  omap (λ c, match c with Shown x => Some x | Blank => None end)
    ((Shown <$> d) ++ replicate b Blank) = d.
Proof.
  rewrite omap_app.
  assert (omap (λ c, match c with Shown x => Some x | Blank => None end)
            (replicate b Blank) = []) as ->
    by (induction b; [done|by cbn]).
  rewrite app_nil_r. induction d as [|x d IH]; [done|]. cbn. by rewrite IH.
Qed.

Lemma data_grid_length (d : list Qc) :
  length (data_grid d) = ((length d + 9) / 10)%nat.
Proof.
  unfold data_grid. by rewrite length_fmap, length_seq, Math_ceil_tenth.
Qed.

(** X4: a grid has [ceil(n / 10)] rows of exactly ten cells; read row by
    row it shows the values in order and then fewer than ten empty cells.
    An empty array gives no row. *)
Theorem grid_layout (d : list Qc) :
  length (data_grid d) = ((length d + 9) / 10)%nat
  ∧ Forall (λ row, length row = 10%nat) (data_grid d)
  ∧ ∃ blanks : nat,
      (blanks < 10)%nat
      ∧ concat (data_grid d) = (Shown <$> d) ++ replicate blanks Blank.
Proof.
  split_and!.
  - apply data_grid_length.
  - unfold data_grid. apply Forall_fmap, Forall_forall. intros r _.
    unfold compose, grid_row. by rewrite length_fmap, length_seq.
  - eexists. split; [|apply concat_data_grid].
    pose proof (Nat.div_mod_eq (length d + 9) 10).
    pose proof (Nat.mod_upper_bound (length d + 9) 10). lia.
Qed.

(** X5: the values a grid shows, read row by row, are the array it was
    built from: nothing is lost, repeated or reordered. *)
Theorem grid_round_trip (d : list Qc) : shown_values (data_grid d) = d.
Proof.
  unfold shown_values. rewrite concat_data_grid.
  apply shown_values_app_blank.
Qed.



Lemma render_after_success (file : File) (σ : World) :
  supported file → numeric_cells (cells file) ≠ [] →
  render (exec (handleFileUpload (Some file)) σ)
  = {| loading_line := false;
       error_text := None;
       original_grid := Some (data_grid (numeric_cells (cells file)));
       sorted_grid :=
         Some (data_grid (merge_sort Qcle (numeric_cells (cells file)))) |}.
Proof.
  intros Hext Hsome.
  destruct (handleFileUpload_success file σ Hext Hsome)
    as (l & Hd & _ & Hl & Hr & He & Hload & _).
  destruct (distribution_nonempty _ Hsome) as (lo & hi & Hdist & _).
  unfold render. rewrite Hd, Hl, Hr, He, Hload, Hdist. cbn.
  rewrite decide_True by done. rewrite decide_True; [done|].
  destruct (numeric_cells (cells file)); [done|cbn; lia].
Qed.

(** X7: after an accepted upload the page shows no loading line and no
    error; the grid "Data Asli" shows the file's numbers in file order and
    the grid "Data Terurut" shows the same numbers in ascending order, in as
    many rows. *)
Theorem page_after_upload (file : File) (σ : World) :
  supported file → numeric_cells (cells file) ≠ [] →
  ∃ asli terurut,
    render (exec (handleFileUpload (Some file)) σ)
    = {| loading_line := false; error_text := None;
         original_grid := Some asli; sorted_grid := Some terurut |}
    ∧ shown_values asli = numeric_cells (cells file)
    ∧ shown_values terurut ≡ₚ numeric_cells (cells file)
    ∧ Sorted Qcle (shown_values terurut)
    ∧ length asli = length terurut.
Proof.
  intros Hext Hsome. eexists _, _.
  split; [by apply render_after_success|].
  unfold shown_values. rewrite !concat_data_grid, !shown_values_app_blank.
  split_and!.
  - done.
  - apply merge_sort_Permutation.
  - apply Sorted_merge_sort; apply _.
  - by rewrite !data_grid_length, merge_sort_length.
Qed.

(** The statement for a CSV file with the cells 5, text, 2. *)
Lemma page_after_upload_witness :
  let file := {| fileExtension := "csv";
                 cells := [NumberCell (Qc_of_Z 5); OtherCell;
                           NumberCell (Qc_of_Z 2)] |} in
  ∃ asli terurut,
    render (exec (handleFileUpload (Some file)) initial_world)
    = {| loading_line := false; error_text := None;
         original_grid := Some asli; sorted_grid := Some terurut |}
    ∧ shown_values asli = [Qc_of_Z 5; Qc_of_Z 2]
    ∧ shown_values terurut ≡ₚ [Qc_of_Z 5; Qc_of_Z 2]
    ∧ Sorted Qcle (shown_values terurut)
    ∧ length asli = length terurut.
Proof.
  apply (page_after_upload
           {| fileExtension := "csv";
              cells := [NumberCell (Qc_of_Z 5); OtherCell;
                        NumberCell (Qc_of_Z 2)] |} initial_world).
  - by_compute.
  - discriminate.
Defined.

(** X8: a refused upload changes nothing on the page but the error line:
    the grids of the earlier file stay, beside the new error.  ([data] is
    taken to refer to an array of the store, as it does from the mount
    on.) *)
Theorem failed_upload_keeps_page (file : File) (σ : World) :
  is_Some (st_arrays σ !! st_data σ) →
  ¬ (supported file ∧ numeric_cells (cells file) ≠ []) →
  render (exec (handleFileUpload (Some file)) σ)
  = {| loading_line := false;
       error_text :=
         Some (if decide (supported file) then no_numeric_data
               else unsupported_format);
       original_grid := original_grid (render σ);
       sorted_grid := sorted_grid (render σ) |}.
Proof.
  intros [d Hd] Hbad.
  destruct (handleFileUpload_failure file σ Hbad)
    as (Hr & Hdata & Ha & He & Hload & _).
  unfold render. rewrite Hr, Hdata, He, Hload.
  rewrite (lookup_weaken _ _ _ _ Hd Ha), Hd.
  f_equal. by destruct (decide (supported file)).
Qed.

(** The statement for a text file uploaded after a CSV file with 5 and 2. *)
Lemma failed_upload_keeps_page_witness :
  let good := {| fileExtension := "csv";
                 cells := [NumberCell (Qc_of_Z 5); NumberCell (Qc_of_Z 2)] |} in
  let bad := {| fileExtension := "txt"; cells := [] |} in
  let σ := exec (handleFileUpload (Some good)) initial_world in
  render (exec (handleFileUpload (Some bad)) σ)
  = {| loading_line := false;
       error_text :=
         Some (if decide (supported bad) then no_numeric_data
               else unsupported_format);
       original_grid := original_grid (render σ);
       sorted_grid := sorted_grid (render σ) |}.
Proof.
  apply (failed_upload_keeps_page
           {| fileExtension := "txt"; cells := [] |}
           (exec (handleFileUpload
                    (Some {| fileExtension := "csv";
                             cells := [NumberCell (Qc_of_Z 5);
                                       NumberCell (Qc_of_Z 2)] |}))
              initial_world)).
  - by_compute.
  - by_compute.
Defined.

(** ** More on the computed result *)

Lemma sorted_head_least (x : Qc) (l : list Qc) :
  StronglySorted Qcle (x :: l) → ∀ y, y ∈ x :: l → x ≤ y.
Proof.
  intros [_ Hall]%StronglySorted_inv y [->|Hy]%elem_of_cons; [done|].
  by eapply Forall_forall in Hall.
Qed.

Lemma sorted_last_greatest (l : list Qc) :
  StronglySorted Qcle l → ∀ z, last l = Some z → ∀ y, y ∈ l → y ≤ z.
Proof.
  induction 1 as [|x l Hs IH Hall]; intros z Hz y Hy; [done|].
  destruct l as [|x' l].
  - cbn in Hz. injection Hz as <-. by apply list_elem_of_singleton in Hy as ->.
  - change (last (x :: x' :: l)) with (last (x' :: l)) in Hz.
    apply elem_of_cons in Hy as [->|Hy]; [|by eapply IH].
    eapply Forall_forall in Hall; [exact Hall|].
    rewrite last_lookup in Hz. by eapply list_elem_of_lookup_2.
Qed.

(** X9: the [data] of a result is the input in ascending order (same
    values, same multiplicities); [minValue] is its first element and
    [maxValue] its last, both are values of the input, every value lies
    between them, and [range] is their difference, never negative. *)
Theorem data_is_sorted_input (σ : World) (values : loc) (xs : list Qc) :
  st_arrays σ !! values = Some xs → xs ≠ [] →
  ∃ r, results_after values σ = Computed r
    ∧ data r ≡ₚ xs
    ∧ Sorted Qcle (data r)
    ∧ head (data r) = Some (minValue r)
    ∧ last (data r) = Some (maxValue r)
    ∧ minValue r ∈ xs ∧ maxValue r ∈ xs
    ∧ (∀ v, v ∈ xs → minValue r ≤ v ∧ v ≤ maxValue r)
    ∧ range r = maxValue r - minValue r
    ∧ 0 ≤ range r.
Proof.
  intros Hv Hne.
  destruct (run_nonempty σ values xs Hv Hne)
    as (lo & hi & Hr & Hlo & Hhi & Hbounds).
  eexists. split; [exact Hr|]. cbn [table_of data minValue maxValue range].
  set (sorted := merge_sort Qcle xs).
  assert (sorted ≡ₚ xs) as Hperm by apply merge_sort_Permutation.
  assert (StronglySorted Qcle sorted) as Hss
    by (apply StronglySorted_merge_sort; apply _).
  assert (∀ v, v ∈ sorted ↔ v ∈ xs) as Hin
    by (intros v; by rewrite Hperm).
  split_and!; try done.
  - apply Sorted_merge_sort; apply _.
  - destruct sorted as [|h t] eqn:E.
    { apply Permutation_nil_l in Hperm. by subst. }
    cbn. f_equal. apply (anti_symm Qcle).
    + apply (sorted_head_least h t Hss), Hin, Hlo.
    + apply Hbounds, Hin. by left.
  - destruct (last sorted) as [z|] eqn:Hz.
    + f_equal. apply (anti_symm Qcle).
      * apply Hbounds, Hin. rewrite last_lookup in Hz.
        by eapply list_elem_of_lookup_2.
      * apply (sorted_last_greatest sorted Hss z Hz), Hin, Hhi.
    + apply last_None in Hz. rewrite Hz in Hperm.
      apply Permutation_nil_l in Hperm. by subst.
  - destruct (Hbounds lo Hlo) as [_ Hle]. qc_lra.
Qed.

(** The statement at the input [3, 1, 2]. *)
Lemma data_is_sorted_input_witness :
  ∃ r, results_after 1%nat (world_with [Qc_of_Z 3; Qc_of_Z 1; Qc_of_Z 2])
       = Computed r
    ∧ data r ≡ₚ [Qc_of_Z 3; Qc_of_Z 1; Qc_of_Z 2]
    ∧ Sorted Qcle (data r)
    ∧ head (data r) = Some (minValue r)
    ∧ last (data r) = Some (maxValue r)
    ∧ minValue r ∈ [Qc_of_Z 3; Qc_of_Z 1; Qc_of_Z 2]
    ∧ maxValue r ∈ [Qc_of_Z 3; Qc_of_Z 1; Qc_of_Z 2]
    ∧ (∀ v, v ∈ [Qc_of_Z 3; Qc_of_Z 1; Qc_of_Z 2] →
            minValue r ≤ v ∧ v ≤ maxValue r)
    ∧ range r = maxValue r - minValue r
    ∧ 0 ≤ range r.
Proof.
  apply (data_is_sorted_input
           (world_with [Qc_of_Z 3; Qc_of_Z 1; Qc_of_Z 2]) 1%nat
           [Qc_of_Z 3; Qc_of_Z 1; Qc_of_Z 2]);
    [reflexivity | discriminate].
Defined.

Lemma filter_length_Permutation (P : Qc → Prop) `{!∀ x, Decision (P x)}
    (l1 l2 : list Qc) :
  l1 ≡ₚ l2 → length (filter P l1) = length (filter P l2).
Proof. intros Hp. by rewrite Hp. Qed.





Lemma Math_ceil_bounds (x : Qc) :
  x ≤ Qc_of_Z (Math_ceil x) ∧ Qc_of_Z (Math_ceil x) < x + 1.
Proof.
  unfold Math_ceil. pose proof (Qle_ceiling x) as H1.
  pose proof (Qceiling_lt x) as H2. split; [exact H1|].
  unfold Z.sub in H2. rewrite inject_Z_plus, inject_Z_opp in H2.
  unfold Qclt, Qcplus, Qc_of_Z, Q2Qc. cbn [this]. rewrite !Qred_correct.
  change (inject_Z 1) with 1%Q in H2.
  set (c := inject_Z (Qceiling x)) in *. clearbody c. Lqa.lra.
Qed.

(** [range <= numberOfClasses * classWidth < range + numberOfClasses] *)
Lemma width_covers_range (lo hi : Qc) (k : Z) :
  (1 ≤ k)%Z →
  hi - lo ≤ Qc_of_Z (k * Math_ceil ((hi - lo) / Qc_of_Z k))
  ∧ Qc_of_Z (k * Math_ceil ((hi - lo) / Qc_of_Z k))
    < hi - lo + Qc_of_Z k.
Proof.
  intros Hk.
  assert (0 < Qc_of_Z k) as Hpos.
  { rewrite <-Z2Qc_inj_0. apply (proj1 (Z2Qc_inj_lt 0 k)). lia. }
  assert (Qc_of_Z k ≠ 0) as Hnz.
  { intros H0. rewrite H0 in Hpos. by apply Qclt_not_eq in Hpos. }
  destruct (Math_ceil_bounds ((hi - lo) / Qc_of_Z k)) as [H1 H2].
  set (x := (hi - lo) / Qc_of_Z k) in *.
  set (w := Math_ceil x) in *.
  assert (hi - lo = Qc_of_Z k * x) as -> by (unfold x; by rewrite Qcmult_div_r).
  rewrite Z2Qc_inj_mul. split.
  - by apply Qcmult_le_mono_pos_l.
  - replace (Qc_of_Z k * x + Qc_of_Z k) with (Qc_of_Z k * (x + 1)) by ring.
    by apply Qcmult_lt_mono_pos_l.
Qed.



Lemma filter_length_ext (P Q : Qc → Prop)
    `{!∀ x, Decision (P x), !∀ x, Decision (Q x)} (l : list Qc) :
  (∀ x, x ∈ l → (P x ↔ Q x)) → length (filter P l) = length (filter Q l).
Proof.
  intros Hext. induction l as [|x l IH]; [done|].
  rewrite !filter_cons.
  pose proof (Hext x (list_elem_of_here _ _)) as Hx.
  assert (length (filter P l) = length (filter Q l)) as IH'
    by (apply IH; intros y Hy; by apply Hext, list_elem_of_further).
  destruct (decide (P x)), (decide (Q x)); cbn; first [lia | tauto].
Qed.

Lemma filter_length_lt (P : Qc → Prop) `{!∀ x, Decision (P x)}
    (l : list Qc) (x : Qc) :
  x ∈ l → ¬ P x → (length (filter P l) < length l)%nat.
Proof.
  intros Hx Hno. induction l as [|y l IH]; [by apply elem_of_nil in Hx|].
  rewrite filter_cons. pose proof (length_filter P l) as Hle.
  apply elem_of_cons in Hx as [<-|Hx].
  - rewrite decide_False by done. cbn. lia.
  - specialize (IH Hx). destruct (decide (P y)); cbn; lia.
Qed.

Lemma is_integer_sub (x y : Qc) :
  is_integer x → is_integer y → is_integer (x - y).
Proof.
  intros [a ->]%is_integer_spec [b ->]%is_integer_spec.
  apply is_integer_spec. exists (a - b)%Z. by rewrite Z2Qc_inj_sub.
Qed.

(** The width is the exact quotient exactly when
    [numberOfClasses * classWidth] is the range. *)
Lemma width_exact_iff (d k w : Z) :
  (1 ≤ k)%Z → Qc_of_Z w = Qc_of_Z d / Qc_of_Z k ↔ (k * w = d)%Z.
Proof.
  intros Hk.
  assert (Qc_of_Z k ≠ 0) as Hnz.
  { rewrite <-Z2Qc_inj_0. intros H0%Z2Qc_inj. lia. }
  split.
  - intros Hw. apply Z2Qc_inj. rewrite Z2Qc_inj_mul, Hw.
    by apply Qcmult_div_r.
  - intros <-. rewrite Z2Qc_inj_mul, (Qcmult_comm (Qc_of_Z k)).
    by rewrite Qcdiv_mult_l.
Qed.



(** On [1, 2, 3, 4] the width 1 is the exact quotient 3 / 3: the classes are
    [1-1], [2-2], [3-3] and the value 4 is counted nowhere. *)
Example maximum_left_out :
  distribution [Qc_of_Z 1; Qc_of_Z 2; Qc_of_Z 3; Qc_of_Z 4]
  = Computed
      (table_of [Qc_of_Z 1; Qc_of_Z 2; Qc_of_Z 3; Qc_of_Z 4]
         (Qc_of_Z 1) (Qc_of_Z 4))
  ∧ frequency
    <$> frequencyTable
          (table_of [Qc_of_Z 1; Qc_of_Z 2; Qc_of_Z 3; Qc_of_Z 4]
             (Qc_of_Z 1) (Qc_of_Z 4))
    = [1; 1; 1]%nat.
Proof. split; by vm_compute. Qed.

Lemma filter_length_pos (P : Qc → Prop) `{!∀ x, Decision (P x)}
    (l : list Qc) (x : Qc) :
  x ∈ l → P x → (1 ≤ length (filter P l))%nat.
Proof.
  intros Hx HP. assert (x ∈ filter P l) as Hin
    by (by apply list_elem_of_filter).
  destruct (filter P l); [by apply elem_of_nil in Hin|cbn; lia].
Qed.



(** ** More on the class count *)

Lemma sturges_mono (n m : nat) :
  (1 ≤ n)%nat → (n ≤ m)%nat → (sturges n <= sturges m)%R.
Proof.
  intros Hn Hnm. unfold sturges, Math_log10. pose proof ln_10_pos as H10.
  assert (ln (INR n) <= ln (INR m))%R as Hln.
  { apply ln_le; [|by apply le_INR]. apply (lt_INR 0). lia. }
  assert (ln (INR n) / ln 10 <= ln (INR m) / ln 10)%R
    by (apply Rmult_le_compat_r; [by apply Rlt_le, Rinv_0_lt_compat|done]).
  Lra.lra.
Qed.

Lemma ceil_sturges_mono (n m : nat) :
  (1 ≤ n)%nat → (n ≤ m)%nat → (ceil_sturges n ≤ ceil_sturges m)%Z.
Proof.
  intros Hn Hnm.
  rewrite <-!ceil_sturges_correct by lia. by apply Zceil_le, sturges_mono.
Qed.

Lemma sturges_fuel_tight (n : nat) :
  (1 ≤ n)%nat → (Z.of_nat n ^ 33 ≤ 10 ^ (10 * (Z.of_nat n - 1)))%Z.
Proof.
  intros Hn. trans ((2 ^ (Z.of_nat n - 1)) ^ 33)%Z.
  - apply Z.pow_le_mono_l. split; [lia|].
    pose proof (Z.pow_gt_lin_r 2 (Z.of_nat n - 1)). lia.
  - rewrite <-Z.pow_mul_r, (Z.mul_comm (Z.of_nat n - 1)) by lia.
    rewrite !Z.pow_mul_r by lia.
    apply Z.pow_le_mono_l. by compute.
Qed.

Lemma ceil_sturges_le (n : nat) :
  (1 ≤ n)%nat → (ceil_sturges n ≤ Z.of_nat n)%Z.
Proof.
  intros Hn. unfold ceil_sturges.
  pose proof (sturges_search_ge (Z.of_nat n ^ 33) n 0) as Hge.
  destruct (sturges_search_spec (Z.of_nat n ^ 33) n 0) as [_ [->|Hlow]];
    [rewrite Z.add_0_l; apply sturges_fuel | lia |].
  set (k := sturges_search _ _ _) in *.
  destruct (decide (k ≤ Z.of_nat n - 1)%Z) as [|Hbig]; [lia|].
  exfalso. pose proof (sturges_fuel_tight n Hn) as Htight.
  assert (10 ^ (10 * (Z.of_nat n - 1)) ≤ 10 ^ (10 * (k - 1)))%Z
    by (apply Z.pow_le_mono_r; lia).
  lia.
Qed.

(** X15: a longer input never gets fewer classes: [numberOfClasses] depends
    on the length of the input alone and does not decrease with it. *)
Theorem numberOfClasses_monotone (σ σ' : World) (values values' : loc)
    (xs ys : list Qc) :
  st_arrays σ !! values = Some xs → st_arrays σ' !! values' = Some ys →
  xs ≠ [] → (length xs ≤ length ys)%nat →
  ∃ r r', results_after values σ = Computed r
    ∧ results_after values' σ' = Computed r'
    ∧ (numberOfClasses r ≤ numberOfClasses r')%Z.
Proof.
  intros Hv Hv' Hne Hlen.
  assert (ys ≠ []) as Hne' by (destruct xs, ys; cbn in *; try done; lia).
  destruct (run_nonempty σ values xs Hv Hne) as (lo & hi & Hr & _).
  destruct (run_nonempty σ' values' ys Hv' Hne') as (lo' & hi' & Hr' & _).
  eexists _, _. split; [exact Hr|]. split; [exact Hr'|].
  cbn [table_of numberOfClasses]. rewrite !merge_sort_length.
  apply ceil_sturges_mono; [|done]. destruct xs; [done|cbn; lia].
Qed.

(** The statement at [7] and [1, 2, 3, 4, 5]. *)
Lemma numberOfClasses_monotone_witness :
  ∃ r r', results_after 1%nat (world_with [Qc_of_Z 7]) = Computed r
    ∧ results_after 1%nat
        (world_with (Qc_of_Z <$> [1; 2; 3; 4; 5]%Z)) = Computed r'
    ∧ (numberOfClasses r ≤ numberOfClasses r')%Z.
Proof.
  apply (numberOfClasses_monotone _ _ 1%nat 1%nat [Qc_of_Z 7]
           (Qc_of_Z <$> [1; 2; 3; 4; 5]%Z));
    [reflexivity | reflexivity | discriminate | cbn; lia].
Defined.

(** X16: there are never more classes than values, and there is a single
    class exactly when the input has a single value. *)
Theorem numberOfClasses_at_most_length (σ : World) (values : loc)
    (xs : list Qc) :
  st_arrays σ !! values = Some xs → xs ≠ [] →
  ∃ r, results_after values σ = Computed r
    ∧ (numberOfClasses r ≤ Z.of_nat (length xs))%Z
    ∧ (numberOfClasses r = 1%Z ↔ length xs = 1%nat).
Proof.
  intros Hv Hne.
  destruct (run_nonempty σ values xs Hv Hne) as (lo & hi & Hr & _).
  eexists. split; [exact Hr|].
  cbn [table_of numberOfClasses]. rewrite merge_sort_length.
  assert (1 ≤ length xs)%nat as Hn by (destruct xs; [done|cbn; lia]).
  split; [by apply ceil_sturges_le|]. split.
  - intros Hone. destruct (decide (length xs = 1%nat)) as [|Hmore]; [done|].
    pose proof (ceil_sturges_mono 2 (length xs)) as Hmono.
    assert (ceil_sturges 2 = 2%Z) as H2 by (by vm_compute).
    lia.
  - intros ->. by vm_compute.
Qed.

(** The statement at the input [2, 8, 5]. *)
Lemma numberOfClasses_at_most_length_witness :
  ∃ r, results_after 1%nat (world_with [Qc_of_Z 2; Qc_of_Z 8; Qc_of_Z 5])
       = Computed r
    ∧ (numberOfClasses r ≤ 3)%Z
    ∧ (numberOfClasses r = 1%Z ↔ 3%nat = 1%nat).
Proof.
  apply (numberOfClasses_at_most_length
           (world_with [Qc_of_Z 2; Qc_of_Z 8; Qc_of_Z 5]) 1%nat
           [Qc_of_Z 2; Qc_of_Z 8; Qc_of_Z 5]);
    [reflexivity | discriminate].
Defined.
